(** * Non-conforming drinking-water samples in Corsica: the batch pipeline

    A shallow embedding of [main.py]: the loader, the transformer
    ([process_dataframe]), the heatmap, bar and choropleth stages, and the
    properties of the tables they compute.

    Python strings are sequences of Unicode code points, data frames are lists
    of typed records in row order, and the calls into pandas that the program
    makes ([groupby], [pivot], [merge], [concat], [quantile]) are modelled by
    executable functions on those lists. The three columns that the program
    reads from an input file are text columns: a cell holds text or is empty
    (NaN). What the run reads from outside (the files that the glob matches,
    their parsed content, the way [pd.to_datetime] reads the cells of a date
    column, the sort behind [sort_values]) is a parameter of the program; the
    call [sort_values('count', ascending=False)] is also modelled on top of
    numpy's [argsort], with the scalar quicksort kernel of numpy as an
    instance. Rendering is not modelled beyond the data handed to the plotting
    calls. *)

From Stdlib Require Import Ascii String.
From Stdlib Require Import List ZArith NArith QArith Qround Bool.
From Stdlib Require Import Permutation Sorted Lia Lqa.
Import ListNotations.

Local Open Scope Z_scope.

(* ================================================================== *)
(** ** Python strings *)

(** A [str] is a sequence of code points. *)
Definition codepoint := N.
Definition str := list codepoint.

(** An ASCII literal of the source, as a [str]. *)
Definition lit (s : string) : str := map N_of_ascii (list_ascii_of_string s).

Definition str_eqb (a b : str) : bool :=
  if list_eq_dec N.eq_dec a b then true else false.

Fixpoint startswith (p s : str) : bool :=
  match p, s with
  | [], _ => true
  | _ :: _, [] => false
  | a :: p', b :: s' => (a =? b)%N && startswith p' s'
  end.

(** [p in s] of Python: [p] occurs in [s] as a contiguous run. *)
Fixpoint str_in (p s : str) : bool :=
  startswith p s ||
  match s with
  | [] => false
  | _ :: s' => str_in p s'
  end.

(** [str.upper()] on one code point, for ASCII, Latin-1 and the ligature oe.
    This is the case mapping of Unicode on U+0000..U+00FF and U+0153 only:
    other code points are left as they are, where Python maps the lower-case
    letters among them. Statements that depend on the mapping are restricted
    to the code points of [in_repertoire] or evaluate it on names inside that
    range. *)
Definition upper_char (c : codepoint) : str :=
  (if (97 <=? c) && (c <=? 122) then [c - 32]
   else if c =? 181 then [924]
   else if c =? 223 then [83; 83]
   else if (224 <=? c) && (c <=? 254) && negb (c =? 247) then [c - 32]
   else if c =? 255 then [376]
   else if c =? 339 then [338]
   else [c])%N.

Definition str_upper (s : str) : str := flat_map upper_char s.

(** The transliteration table of [unidecode] for ASCII (unchanged), the
    Latin-1 letters U+00C0..U+00FF and the letters U+0152, U+0153, U+0178.
    The table of the library has entries for other code points as well; they
    are not modelled (the empty transliteration stands for them), and the
    statements about [unidecode] are restricted to the code points of
    [in_repertoire]. *)
Definition unidecode_char (c : codepoint) : str :=
  (if c <? 128 then [c]
   else if (192 <=? c) && (c <=? 197) then lit "A"
   else if c =? 198 then lit "AE"
   else if c =? 199 then lit "C"
   else if (200 <=? c) && (c <=? 203) then lit "E"
   else if (204 <=? c) && (c <=? 207) then lit "I"
   else if c =? 208 then lit "D"
   else if c =? 209 then lit "N"
   else if (210 <=? c) && (c <=? 214) then lit "O"
   else if c =? 215 then lit "x"
   else if c =? 216 then lit "O"
   else if (217 <=? c) && (c <=? 220) then lit "U"
   else if c =? 221 then lit "Y"
   else if c =? 222 then lit "Th"
   else if c =? 223 then lit "ss"
   else if (224 <=? c) && (c <=? 229) then lit "a"
   else if c =? 230 then lit "ae"
   else if c =? 231 then lit "c"
   else if (232 <=? c) && (c <=? 235) then lit "e"
   else if (236 <=? c) && (c <=? 239) then lit "i"
   else if c =? 240 then lit "d"
   else if c =? 241 then lit "n"
   else if (242 <=? c) && (c <=? 246) then lit "o"
   else if c =? 247 then lit "/"
   else if c =? 248 then lit "o"
   else if (249 <=? c) && (c <=? 252) then lit "u"
   else if c =? 253 then lit "y"
   else if c =? 254 then lit "th"
   else if c =? 255 then lit "y"
   else if c =? 338 then lit "OE"
   else if c =? 339 then lit "oe"
   else if c =? 376 then lit "Y"
   else [])%N.

Definition unidecode (s : str) : str := flat_map unidecode_char s.

(* ================================================================== *)
(** ** Ordering of group keys *)

(** pandas sorts group keys: integers numerically, strings by code point,
    tuples lexicographically. *)
Class Compare (K : Type) := cmp : K -> K -> comparison.

#[export] Instance Z_Compare : Compare Z := Z.compare.
#[export] Instance N_Compare : Compare N := N.compare.

Fixpoint list_cmp {A : Type} `{Compare A} (a b : list A) : comparison :=
  match a, b with
  | [], [] => Eq
  | [], _ :: _ => Lt
  | _ :: _, [] => Gt
  | x :: a', y :: b' =>
      match cmp x y with
      | Eq => list_cmp a' b'
      | c => c
      end
  end.

#[export] Instance list_Compare {A : Type} `{Compare A} : Compare (list A) := list_cmp.

Definition prod_cmp {A B : Type} `{Compare A} `{Compare B} (p q : A * B) : comparison :=
  match cmp (fst p) (fst q) with
  | Eq => cmp (snd p) (snd q)
  | c => c
  end.

#[export] Instance prod_Compare {A B : Type} `{Compare A} `{Compare B} : Compare (A * B) :=
  prod_cmp.

Definition key_eqb {K : Type} `{Compare K} (a b : K) : bool :=
  match cmp a b with Eq => true | _ => false end.

(** The laws of a total order, stated on the comparison function. *)
Class CompareLaws (K : Type) `{Compare K} : Prop := {
  cmp_eq : forall a b : K, cmp a b = Eq <-> a = b;
  cmp_antisym : forall a b : K, cmp b a = CompOpp (cmp a b);
  cmp_trans : forall a b c : K, cmp a b = Lt -> cmp b c = Lt -> cmp a c = Lt
}.

(* ================================================================== *)
(** ** groupby *)

Fixpoint insert_key {K : Type} `{Compare K} (k : K) (l : list K) : list K :=
  match l with
  | [] => [k]
  | h :: t =>
      match cmp k h with
      | Lt => k :: l
      | Eq => l
      | Gt => h :: insert_key k t
      end
  end.

(** The distinct group keys, in increasing order ([sort=True]). *)
Definition group_keys {K : Type} `{Compare K} (l : list K) : list K :=
  fold_right insert_key [] l.

Definition group {K A : Type} `{Compare K} (by_ : A -> K) (k : K) (df : list A) : list A :=
  filter (fun r => key_eqb (by_ r) k) df.

Definition Zsum (l : list Z) : Z := fold_right Z.add 0 l.

(** [df.groupby(by).size()]: one row per distinct key, with the number of rows
    of the group. *)
Definition groupby_size {K A : Type} `{Compare K} (by_ : A -> K) (df : list A)
  : list (K * Z) :=
  map (fun k => (k, Z.of_nat (length (group by_ k df)))) (group_keys (map by_ df)).

(** [df.groupby(by).agg({col: 'sum'})]: one row per distinct key, with the sum
    of the column over the group. *)
Definition groupby_sum {K A : Type} `{Compare K} (by_ : A -> K) (col : A -> Z)
  (df : list A) : list (K * Z) :=
  map (fun k => (k, Zsum (map col (group by_ k df)))) (group_keys (map by_ df)).

(* ================================================================== *)
(** ** Exceptions *)

Inductive exn : Type :=
| KeyError (column : string)
| DateParseError (cell : str)
| ParserError (path : string)
| ValueError (msg : string)
| AttributeError (msg : string)
| FileNotFoundError (path : string).

Inductive result (A : Type) : Type :=
| Ok (a : A)
| Raise (e : exn).

Arguments Ok {A} a.
Arguments Raise {A} e.

Definition bind {A B : Type} (m : result A) (f : A -> result B) : result B :=
  match m with
  | Ok a => f a
  | Raise e => Raise e
  end.

Notation "x <- m ;; k" := (bind m (fun x => k))
  (at level 61, m at next level, right associativity).

(* ================================================================== *)
(** ** Data model *)

Record Timestamp : Type := { ts_year : Z; ts_month : Z; ts_day : Z }.

(** A row of an input file, as [read_csv] delivers it: each cell of the
    three columns holds text, or is empty (NaN, [None]). *)
Module Raw.
Record row : Type := mk {
  dateprel : option str;
  nomcommuneprinc : option str;
  conclusionprel : option str
}.
End Raw.

(** A row of the frame inside [process_dataframe], after the date columns are
    derived and the commune name is rewritten. An empty date cell has become
    NaT, with NaN for its month and year. *)
Module Sample.
Record row : Type := mk {
  dateprel : option Timestamp;
  month : option Z;
  year : option Z;
  nomcommuneprinc : option str;
  conclusionprel : option str
}.
End Sample.

(** A row of the aggregated count table. The year and the month are held as
    numbers; pandas stores them as floating-point numbers of the same value
    for a file in which a date cell is empty. *)
Module Agg.
Record row : Type := mk {
  year : Z;
  month : Z;
  nomcommuneprinc : str;
  count : Z
}.
Definition key (r : row) : Z * Z * str := (year r, month r, nomcommuneprinc r).
End Agg.

(** The aggregated table with its column labels: [pd.DataFrame()] has neither
    columns nor rows. *)
Record DataFrame : Type := {
  columns : list string;
  records : list Agg.row
}.

Definition pd_DataFrame : DataFrame := {| columns := []; records := [] |}.

Definition has_column (c : string) (df : DataFrame) : bool :=
  existsb (String.eqb c) (columns df).

(** [pd.concat([a, b])]: the rows of [a] then those of [b], over the union of
    the columns. *)
Definition pd_concat (a b : DataFrame) : DataFrame :=
  {| columns := columns a ++ filter (fun c => negb (has_column c a)) (columns b);
     records := records a ++ records b |}.

(** Selecting columns that a frame does not have raises [KeyError] on the
    first one that is missing. *)
Fixpoint require_columns (cs : list string) (df : DataFrame) : result unit :=
  match cs with
  | [] => Ok tt
  | c :: cs' => if has_column c df then require_columns cs' df else Raise (KeyError c)
  end.

(** A boundary feature of the GeoJSON file. *)
Definition Geometry := list (list (Q * Q)).

Record Feature : Type := {
  nom : str;
  geometry : Geometry
}.

(** A row of the boundaries joined with the counts; the columns that come from
    the count table are NaN ([None]) where the join found no partner. *)
Module Merged.
Record row : Type := mk {
  nom : str;
  geometry : Geometry;
  nomcommuneprinc : option str;
  count : option Z
}.
End Merged.

(* ================================================================== *)
(** ** pandas operations used by the stages *)

Definition is_text {A : Type} (cell : option A) : bool :=
  match cell with
  | Some _ => true
  | None => false
  end.

(** A column that [read_csv] types as text: it has no row, or at least one
    cell with text. A column with rows and no text at all is a column of
    numbers (all NaN). *)
Definition text_column (col : list (option str)) : bool :=
  match col with
  | [] => true
  | _ :: _ => existsb is_text col
  end.

(** [Series.str]: only a text column has the accessor. *)
Definition str_accessor (col : list (option str)) : result (list (option str)) :=
  if text_column col then Ok col
  else Raise (AttributeError "Can only use .str accessor with string values!").

(** [Series.str.upper()]: empty cells stay empty. *)
Definition Series_str_upper (col : list (option str)) : result (list (option str)) :=
  col <- str_accessor col ;;
  Ok (map (option_map str_upper) col).

(** [Series.str.contains(pat, na=...)] on one cell, for a pattern that is an
    alternation of literal phrases: the search is case-sensitive and
    unanchored. *)
Definition str_contains (alternatives : list str) (na : bool) (cell : option str) : bool :=
  match cell with
  | None => na
  | Some s => existsb (fun p => str_in p s) alternatives
  end.

Definition Series_str_contains (alternatives : list str) (na : bool)
  (col : list (option str)) : result (list bool) :=
  col <- str_accessor col ;;
  Ok (map (str_contains alternatives na) col).

(** [pd.to_datetime] on a column, given the reading of one cell: an empty cell
    becomes NaT, and the first cell that cannot be read raises. *)
Fixpoint parse_cells (parse : str -> option Timestamp) (col : list (option str))
  : result (list (option Timestamp)) :=
  match col with
  | [] => Ok []
  | None :: col' =>
      rest <- parse_cells parse col' ;;
      Ok (None :: rest)
  | Some cell :: col' =>
      match parse cell with
      | None => Raise (DateParseError cell)
      | Some t =>
          rest <- parse_cells parse col' ;;
          Ok (Some t :: rest)
      end
  end.

(** [df[mask]]: the rows at which the mask holds. *)
Definition boolean_index {A : Type} (mask : list bool) (df : list A) : list A :=
  map snd (filter fst (combine mask df)).

(** The keys of the rows that [groupby] puts in a group: a row with NaN in a
    key column belongs to no group (the default [dropna=True]). *)
Definition observed_keys {K A : Type} (by_ : A -> option K) (df : list A) : list K :=
  flat_map (fun r => match by_ r with Some k => [k] | None => [] end) df.

(** [DataFrame.pivot(index="month", columns="year", values="count")]. *)
Record Pivot : Type := {
  pv_index : list Z;
  pv_columns : list Z;
  pv_values : list (list (option Z))
}.

Definition pivot_cell (rows : list (Z * Z * Z)) (m y : Z) : option Z :=
  match find (fun r => (snd (fst r) =? m) && (fst (fst r) =? y)) rows with
  | Some r => Some (snd r)
  | None => None
  end.

Fixpoint has_dup {K : Type} `{Compare K} (l : list K) : bool :=
  match l with
  | [] => false
  | k :: l' => existsb (key_eqb k) l' || has_dup l'
  end.

(** The rows are (year, month, count); a repeated (month, year) pair cannot be
    reshaped. *)
Definition pivot (rows : list (Z * Z * Z)) : result Pivot :=
  if has_dup (map (fun r => (snd (fst r), fst (fst r))) rows)
  then Raise (ValueError "Index contains duplicate entries, cannot reshape")
  else
    let idx := group_keys (map (fun r => snd (fst r)) rows) in
    let cols := group_keys (map (fun r => fst (fst r)) rows) in
    Ok {| pv_index := idx;
          pv_columns := cols;
          pv_values := map (fun m => map (fun y => pivot_cell rows m y) cols) idx |}.

(** Label-based lookup in a labelled sequence. *)
Fixpoint lookup_label {A : Type} (labels : list Z) (xs : list A) (l : Z) : option A :=
  match labels, xs with
  | l' :: labels', x :: xs' => if l' =? l then Some x else lookup_label labels' xs' l
  | _, _ => None
  end.

(** [heatmap_data.loc[m, y]]: [None] when a label is absent from the grid,
    [Some None] for a blank (NaN) cell. *)
Definition pivot_loc (p : Pivot) (m y : Z) : option (option Z) :=
  match lookup_label (pv_index p) (pv_values p) m with
  | Some row => lookup_label (pv_columns p) row y
  | None => None
  end.

(** The rows of the count table whose commune equals the name of a feature,
    in the order of the table. *)
Definition partners (df : list (str * Z)) (g : Feature) : list (str * Z) :=
  filter (fun r => str_eqb (nom g) (fst r)) df.

(** The rows that a feature contributes to a left join: one per partner, or
    one with NaN in the right-hand columns when it has none. *)
Definition joined_block (df : list (str * Z)) (g : Feature) : list Merged.row :=
  match partners df g with
  | [] => [Merged.mk (nom g) (geometry g) None None]
  | ps => map (fun r => Merged.mk (nom g) (geometry g) (Some (fst r)) (Some (snd r))) ps
  end.

(** [gdf.merge(df, left_on='nom', right_on='nomcommuneprinc', how='left')]:
    every left row, in order, with each of its partners. *)
Definition merge_left (gdf : list Feature) (df : list (str * Z)) : list Merged.row :=
  flat_map (joined_block df) gdf.

(** [fillna] on the count cell of one row. *)
Definition fill_row (v : Z) (r : Merged.row) : Merged.row :=
  Merged.mk (Merged.nom r) (Merged.geometry r) (Merged.nomcommuneprinc r)
            (match Merged.count r with None => Some v | c => c end).

(** [merged_df['count'].fillna(0, inplace=True)]: the column that the
    indexing returns shares its values with the frame (pandas without
    copy-on-write), so the frame sees the fill. *)
Definition fillna_count (v : Z) (df : list Merged.row) : list Merged.row :=
  map (fill_row v) df.

Fixpoint insert_sorted (x : Z) (l : list Z) : list Z :=
  match l with
  | [] => [x]
  | h :: t => if x <=? h then x :: l else h :: insert_sorted x t
  end.

Definition sort_asc (l : list Z) : list Z := fold_right insert_sorted [] l.

Fixpoint dropna (col : list (option Z)) : list Z :=
  match col with
  | [] => []
  | Some v :: col' => v :: dropna col'
  | None :: col' => dropna col'
  end.

(** [Series.quantile(q)] with linear interpolation between the two order
    statistics around position [(n - 1) * q]; NaN ([None]) on an empty column.
    The arithmetic is exact here, where pandas rounds to a float. *)
Definition quantile (q : Q) (col : list (option Z)) : option Q :=
  match sort_asc (dropna col) with
  | [] => None
  | (x0 :: _) as xs =>
      let n := Z.of_nat (length xs) in
      let h := (inject_Z (n - 1) * q)%Q in
      let i := Qfloor h in
      let lo := nth (Z.to_nat i) xs x0 in
      let hi := nth (Z.to_nat (Z.min (i + 1) (n - 1))) xs x0 in
      Some (inject_Z lo + inject_Z (hi - lo) * (h - inject_Z i))%Q
  end.

(** numpy's [argsort] returns positions of its argument; [take] reads the
    rows at these positions. *)
Definition take {A : Type} (d : A) (indexer : list nat) (rows : list A) : list A :=
  map (fun i => nth i rows d) indexer.

(** [nargsort(items, kind, ascending=False)] of pandas, for a column without
    NaN: the column and its positions are reversed, sorted in increasing
    order by numpy's [argsort], and the resulting positions are reversed
    again. *)
Definition nargsort (argsort : list Z -> list nat) (items : list Z) : list nat :=
  let idx := seq 0 (length items) in
  let non_nans := rev items in
  let non_nan_idx := rev idx in
  let indexer := take 0%nat (argsort non_nans) non_nan_idx in
  rev indexer.

(** [DataFrame.sort_values('count', ascending=False)] on a table of
    (commune, count) rows, over the sorting kernel [argsort]. *)
Definition sort_values_count (argsort : list Z -> list nat) (df : list (str * Z))
  : list (str * Z) :=
  take ([], 0) (nargsort argsort (map snd df)) df.

(** What [sns.heatmap] needs of its data: the colour range is the minimum and
    maximum of the cells, and a grid without cells has none. *)
Definition sns_heatmap (data : Pivot) : result unit :=
  match concat (pv_values data) with
  | [] => Raise (ValueError "zero-size array to reduction operation fmin which has no identity")
  | _ :: _ => Ok tt
  end.

(* ================================================================== *)
(** ** Output artifacts *)

(** The month-by-year grid and the tick labels put on its vertical axis. *)
Record Heatmap : Type := {
  heatmap_data : Pivot;
  yticks : list (Z * str)
}.

Record Barplot : Type := {
  bars : list (str * Z);
  texts : list (Z * Q * Z)
}.

Record Choropleth : Type := {
  merged_df : list Merged.row;
  range_color : Q * option Q
}.

Inductive Artifact : Type :=
| heatmap_png (fig : Heatmap)
| barplot_png (fig : Barplot)
| index_html (fig : Choropleth).

(** Position of a value on a continuous colour scale whose ends are
    [range_color]: 0 is the first stop, 1 the last, and values outside the
    range are clipped to the ends. *)
Definition color_position (lo hi v : Q) : Q :=
  if Qle_bool hi v then 1%Q
  else if Qle_bool v lo then 0%Q
  else ((v - lo) / (hi - lo))%Q.

(** Stages write files and may raise: the files written so far survive an
    exception. *)
Definition IO (A : Type) : Type := list Artifact -> result A * list Artifact.

Definition io_ret {A : Type} (a : A) : IO A := fun files => (Ok a, files).

Definition io_bind {A B : Type} (m : IO A) (f : A -> IO B) : IO B :=
  fun files =>
    match m files with
    | (Ok a, files') => f a files'
    | (Raise e, files') => (Raise e, files')
    end.

Definition io_lift {A : Type} (m : result A) : IO A := fun files => (m, files).

Definition write (a : Artifact) : IO unit := fun files => (Ok tt, files ++ [a]).

Notation "x <~ m ;; k" := (io_bind m (fun x => k))
  (at level 61, m at next level, right associativity).

(** [range(a, b)]. *)
Definition range (a b : Z) : list Z :=
  map (fun i => a + Z.of_nat i) (seq 0 (Z.to_nat (b - a))).

(* ================================================================== *)
(** ** The program *)

Definition remove_accents_and_uppercase (str_val : str) : str :=
  str_upper (unidecode str_val).

(** The two phrases of the filter pattern, joined by [|] in the source. *)
Definition non_conforme : list str :=
  [lit "Eau d'alimentation non-conforme"; lit "Eau d'alimentation non conforme"].

Definition month_labels : list str :=
  [lit "Jan"; lit "F" ++ [233%N] ++ lit "v"; lit "Mar"; lit "Avr"; lit "Mai";
   lit "Juin"; lit "Juil"; lit "Ao" ++ [251%N] ++ lit "t"; lit "Sep"; lit "Oct";
   lit "Nov"; lit "D" ++ [233%N] ++ lit "c"].

Section Program.

(** The environment of a run: how [pd.to_datetime] reads a cell of a date
    column (pandas settles the reading on the column as a whole: one format
    guessed from its first cell that is not empty, or cell-by-cell parsing
    when it guesses none), the files the glob matches for a year, the parsers
    of the input files, and the sort behind
    [sort_values('count', ascending=False)], which [sort_values_count]
    models over a sorting kernel of numpy. *)
Variable to_datetime : list (option str) -> str -> option Timestamp.
Variable glob : Z -> list string.
Variable read_csv : string -> result (list Raw.row).
Variable read_file : string -> result (list Feature).
Variable sort_values : list (str * Z) -> list (str * Z).

(** The working frame after lines 20-23, from its columns: [month] and [year]
    are derived from the parsed date. *)
Fixpoint frame (dateprel : list (option Timestamp))
  (nomcommuneprinc conclusionprel : list (option str)) : list Sample.row :=
  match dateprel, nomcommuneprinc, conclusionprel with
  | t :: dateprel', c :: nomcommuneprinc', k :: conclusionprel' =>
      Sample.mk t (option_map ts_month t) (option_map ts_year t) c k
      :: frame dateprel' nomcommuneprinc' conclusionprel'
  | _, _, _ => []
  end.

(** The group key of a row, when none of its key cells is empty. *)
Definition sample_key (r : Sample.row) : option (Z * Z * str) :=
  match Sample.year r, Sample.month r, Sample.nomcommuneprinc r with
  | Some y, Some m, Some c => Some (y, m, c)
  | _, _, _ => None
  end.

Definition process_dataframe (df : list Raw.row) : result DataFrame :=
  dateprel <- parse_cells (to_datetime (map Raw.dateprel df)) (map Raw.dateprel df) ;;
  nomcommuneprinc <- Series_str_upper (map Raw.nomcommuneprinc df) ;;
  mask <- Series_str_contains non_conforme false (map Raw.conclusionprel df) ;;
  let df := frame dateprel nomcommuneprinc (map Raw.conclusionprel df) in
  let df_filtered := boolean_index mask df in
  Ok {| columns := ["year"; "month"; "nomcommuneprinc"; "count"]%string;
        records :=
          map (fun g => Agg.mk (fst (fst (fst g))) (snd (fst (fst g))) (snd (fst g)) (snd g))
              (groupby_size (fun k => k) (observed_keys sample_key df_filtered)) |}.

Fixpoint load_files (paths : list string) (df_combined : DataFrame) : result DataFrame :=
  match paths with
  | [] => Ok df_combined
  | file_path :: paths' =>
      df <- read_csv file_path ;;
      df_yearly <- process_dataframe df ;;
      load_files paths' (pd_concat df_combined df_yearly)
  end.

Fixpoint load_years (year_range : list Z) (df_combined : DataFrame) : result DataFrame :=
  match year_range with
  | [] => Ok df_combined
  | year :: years =>
      df_combined' <- load_files (glob year) df_combined ;;
      load_years years df_combined'
  end.

Definition load_and_process_data (year_range : list Z) : result DataFrame :=
  load_years year_range pd_DataFrame.

(** Lines 39-40: the (year, month) totals and their pivot. *)
Definition heatmap_df (df : DataFrame) : result (list (Z * Z * Z)) :=
  _ <- require_columns ["year"; "month"; "count"]%string df ;;
  Ok (groupby_sum (fun r => (Agg.year r, Agg.month r)) Agg.count (records df)).

Definition heatmap_pivot (df : DataFrame) : result Pivot :=
  heatmap_df <- heatmap_df df ;;
  pivot heatmap_df.

Definition create_heatmap (df : DataFrame) : IO unit :=
  data <~ io_lift (heatmap_pivot df) ;;
  _ <~ io_lift (sns_heatmap data) ;;
  write (heatmap_png {| heatmap_data := data;
                        yticks := combine (range 0 12) month_labels |}).

(** Line 52: the per-commune totals, ranked. *)
Definition commune_counts (df : DataFrame) : result (list (str * Z)) :=
  _ <- require_columns ["nomcommuneprinc"; "count"]%string df ;;
  Ok (sort_values (groupby_sum Agg.nomcommuneprinc Agg.count (records df))).

Definition create_barplot (df : DataFrame) : IO (list (str * Z)) :=
  commune_counts <~ io_lift (commune_counts df) ;;
  _ <~ write (barplot_png
               {| bars := commune_counts;
                  texts := map (fun iv => (snd iv + 3, (inject_Z (fst iv) + (1 # 4))%Q, snd iv))
                               (combine (range 0 (Z.of_nat (length commune_counts)))
                                        (map snd commune_counts)) |}) ;;
  io_ret commune_counts.

(** Lines 72-74: the join, the fill and the colour-scale cutoff. *)
Definition choropleth_data (df : list (str * Z)) (gdf : list Feature) : list Merged.row :=
  fillna_count 0 (merge_left gdf df).

Definition top_tier_value (merged_df : list Merged.row) : option Q :=
  quantile (95 # 100) (map Merged.count merged_df).

Definition create_choropleth (df : list (str * Z)) (gdf : list Feature) : IO unit :=
  let merged_df := choropleth_data df gdf in
  write (index_html {| merged_df := merged_df;
                       range_color := (0%Q, top_tier_value merged_df) |}).

Definition main : IO unit :=
  df_plv_combined <~ io_lift (load_and_process_data (range 2016 2024)) ;;
  _ <~ create_heatmap df_plv_combined ;;
  commune_counts <~ create_barplot df_plv_combined ;;
  gdf <~ io_lift (read_file "communes-corse.geojson") ;;
  let gdf := map (fun f => {| nom := remove_accents_and_uppercase (nom f);
                              geometry := geometry f |}) gdf in
  create_choropleth commune_counts gdf.

End Program.

(* ================================================================== *)
(** ** Instances of the environment used in examples *)

Definition digit (c : codepoint) : option Z :=
  if ((48 <=? c) && (c <=? 57))%N then Some (Z.of_N c - 48) else None.

Fixpoint number (s : str) (acc : Z) : option Z :=
  match s with
  | [] => Some acc
  | c :: s' =>
      match digit c with
      | Some d => number s' (10 * acc + d)
      | None => None
      end
  end.

(** A date written [YYYY-MM-DD]. *)
Definition iso_date (s : str) : option Timestamp :=
  match s with
  | [y1; y2; y3; y4; 45%N; m1; m2; 45%N; d1; d2] =>
      match number [y1; y2; y3; y4] 0, number [m1; m2] 0, number [d1; d2] 0 with
      | Some y, Some m, Some d =>
          if (1 <=? m) && (m <=? 12) && (1 <=? d) && (d <=? 31)
          then Some {| ts_year := y; ts_month := m; ts_day := d |}
          else None
      | _, _, _ => None
      end
  | _ => None
  end.

(** The reading of date columns whose cells are written [YYYY-MM-DD], the
    format [pd.to_datetime] guesses from such a cell. *)
Definition to_datetime_iso (col : list (option str)) (cell : str) : option Timestamp :=
  iso_date cell.

(** A date written [DD/MM/YYYY] (day first) or [MM/DD/YYYY]. *)
Definition slash_date (day_first : bool) (s : str) : option Timestamp :=
  match s with
  | [a1; a2; 47%N; b1; b2; 47%N; y1; y2; y3; y4] =>
      match number [a1; a2] 0, number [b1; b2] 0, number [y1; y2; y3; y4] 0 with
      | Some a, Some b, Some y =>
          let d := if day_first then a else b in
          let m := if day_first then b else a in
          if (1 <=? m) && (m <=? 12) && (1 <=? d) && (d <=? 31)
          then Some {| ts_year := y; ts_month := m; ts_day := d |}
          else None
      | _, _, _ => None
      end
  | _ => None
  end.

Fixpoint first_text (col : list (option str)) : option str :=
  match col with
  | [] => None
  | Some cell :: _ => Some cell
  | None :: col' => first_text col'
  end.

(** The reading of date columns whose cells are written with slashes, two
    digits, two digits, four digits: a first cell whose leading number
    exceeds 12 can only be day first, and [pd.to_datetime] reads the whole
    column as [DD/MM/YYYY]; any other first cell makes it read the column as
    [MM/DD/YYYY]. *)
Definition to_datetime_slash (col : list (option str)) (cell : str) : option Timestamp :=
  match first_text col with
  | Some (a1 :: a2 :: _) =>
      match number [a1; a2] 0 with
      | Some a => slash_date (12 <? a) cell
      | None => None
      end
  | _ => None
  end.

(** A sort by decreasing count that keeps rows of equal count in the order it
    finds them. *)
Fixpoint insert_before_ties (x : str * Z) (l : list (str * Z)) : list (str * Z) :=
  match l with
  | [] => [x]
  | h :: t => if snd h <=? snd x then x :: l else h :: insert_before_ties x t
  end.

Definition sort_desc_stable (l : list (str * Z)) : list (str * Z) :=
  fold_right insert_before_ties [] l.

(** *** numpy's scalar quicksort kernel for [argsort]

    The default [kind] of [sort_values] is quicksort: [npy_aquicksort] of
    numpy's [npysort/quicksort.cpp], an introsort on the array [tosort] of
    positions, which compares the values [v] at these positions. Ranges of
    at most 17 positions are sorted by insertion, larger ones are
    partitioned around the median of three, and a range popped from the
    stack with its depth budget used up is heap-sorted. Positions into
    [tosort] are integers, as the pointers of the source; the loops run on a
    budget of steps that the length of the array bounds. (Builds of numpy
    that dispatch [argsort] to vectorised kernels on the processor at hand
    do not run this code.) *)
Module npysort.

Section Kernel.

Variable v : list Z.

Definition get (tosort : list nat) (p : Z) : nat := nth (Z.to_nat p) tosort 0%nat.

Fixpoint set_nth (tosort : list nat) (i : nat) (x : nat) : list nat :=
  match tosort, i with
  | [], _ => []
  | _ :: t, O => x :: t
  | h :: t, S i' => h :: set_nth t i' x
  end.

Definition set (tosort : list nat) (p : Z) (x : nat) : list nat :=
  set_nth tosort (Z.to_nat p) x.

(** [v[*p]]. *)
Definition at_ (tosort : list nat) (p : Z) : Z := nth (get tosort p) v 0.

Definition INTP_SWAP (tosort : list nat) (p q : Z) : list nat :=
  set (set tosort p (get tosort q)) q (get tosort p).

(** [do ++pi; while (v[*pi] < vp)]. *)
Fixpoint scan_up (steps : nat) (tosort : list nat) (vp : Z) (pi : Z) : Z :=
  match steps with
  | O => pi
  | S steps' =>
      let pi := pi + 1 in
      if at_ tosort pi <? vp then scan_up steps' tosort vp pi else pi
  end.

(** [do --pj; while (vp < v[*pj])]. *)
Fixpoint scan_down (steps : nat) (tosort : list nat) (vp : Z) (pj : Z) : Z :=
  match steps with
  | O => pj
  | S steps' =>
      let pj := pj - 1 in
      if vp <? at_ tosort pj then scan_down steps' tosort vp pj else pj
  end.

(** The [for (;;)] loop of the partition; returns the array and [pi]. *)
Fixpoint partition_loop (steps : nat) (tosort : list nat) (vp : Z) (pi pj : Z)
  : list nat * Z :=
  match steps with
  | O => (tosort, pi)
  | S steps' =>
      let pi := scan_up (length tosort) tosort vp pi in
      let pj := scan_down (length tosort) tosort vp pj in
      if pi >=? pj then (tosort, pi)
      else partition_loop steps' (INTP_SWAP tosort pi pj) vp pi pj
  end.

(** One round of the [while ((pr - pl) > SMALL_QUICKSORT)] loop: the median
    of three goes to [pm], the pivot is parked at [pr - 1], the range is
    partitioned and the pivot put at [pi]. *)
Definition partition (tosort : list nat) (pl pr : Z) : list nat * Z :=
  let pm := pl + Z.shiftr (pr - pl) 1 in
  let tosort := if at_ tosort pm <? at_ tosort pl then INTP_SWAP tosort pm pl else tosort in
  let tosort := if at_ tosort pr <? at_ tosort pm then INTP_SWAP tosort pr pm else tosort in
  let tosort := if at_ tosort pm <? at_ tosort pl then INTP_SWAP tosort pm pl else tosort in
  let vp := at_ tosort pm in
  let pi := pl in
  let pj := pr - 1 in
  let tosort := INTP_SWAP tosort pm pj in
  let '(tosort, pi) := partition_loop (length tosort) tosort vp pi pj in
  let pk := pr - 1 in
  (INTP_SWAP tosort pi pk, pi).

(** The loop state: the array, the current range and its depth budget, and
    the stack of the ranges left to sort with theirs. *)
Record state : Type := {
  tosort_ : list nat;
  pl_ : Z;
  pr_ : Z;
  cdepth_ : Z;
  stack_ : list (Z * Z * Z)
}.

Fixpoint quicksort_loop (steps : nat) (st : state) : state :=
  match steps with
  | O => st
  | S steps' =>
      let pl := pl_ st in
      let pr := pr_ st in
      if pr - pl >? 16 then
        let '(tosort, pi) := partition (tosort_ st) pl pr in
        let cdepth := cdepth_ st - 1 in
        (* push largest partition on stack *)
        if pi - pl <? pr - pi then
          quicksort_loop steps'
            {| tosort_ := tosort; pl_ := pl; pr_ := pi - 1; cdepth_ := cdepth;
               stack_ := (pi + 1, pr, cdepth) :: stack_ st |}
        else
          quicksort_loop steps'
            {| tosort_ := tosort; pl_ := pi + 1; pr_ := pr; cdepth_ := cdepth;
               stack_ := (pl, pi - 1, cdepth) :: stack_ st |}
      else st
  end.

(** The inner [while] of the insertion sort: the positions above [pl] whose
    value exceeds [vp] move up by one. *)
Fixpoint shift_up (steps : nat) (tosort : list nat) (pl : Z) (vp : Z) (pj : Z)
  : list nat * Z :=
  match steps with
  | O => (tosort, pj)
  | S steps' =>
      let pk := pj - 1 in
      if (pj >? pl) && (vp <? at_ tosort pk)
      then shift_up steps' (set tosort pj (get tosort pk)) pl vp pk
      else (tosort, pj)
  end.

Definition insert_at (pl : Z) (tosort : list nat) (pi : Z) : list nat :=
  let vi := get tosort pi in
  let vp := nth vi v 0 in
  let '(tosort, pj) := shift_up (length tosort) tosort pl vp pi in
  set tosort pj vi.

Definition insertion_sort (tosort : list nat) (pl pr : Z) : list nat :=
  fold_left (insert_at pl) (map (fun k => pl + 1 + Z.of_nat k) (seq 0 (Z.to_nat (pr - pl))))
            tosort.

(** [aheapsort_] on the [n] positions from [pl]: the heap is indexed from 1,
    [a[k]] being the position [pl + k - 1]. *)
Fixpoint sift_down (steps : nat) (tosort : list nat) (pl : Z) (tmp : nat) (n i j : Z)
  : list nat * Z :=
  match steps with
  | O => (tosort, i)
  | S steps' =>
      if j <=? n then
        let a k := at_ tosort (pl + k - 1) in
        let j := if (j <? n) && (a j <? a (j + 1)) then j + 1 else j in
        if nth tmp v 0 <? a j
        then sift_down steps' (set tosort (pl + i - 1) (get tosort (pl + j - 1))) pl tmp n j (j + j)
        else (tosort, i)
      else (tosort, i)
  end.

Definition heapify_at (pl n : Z) (tosort : list nat) (l : Z) : list nat :=
  let tmp := get tosort (pl + l - 1) in
  let '(tosort, i) := sift_down (length tosort) tosort pl tmp n l (Z.shiftl l 1) in
  set tosort (pl + i - 1) tmp.

Definition extract_at (pl : Z) (tosort : list nat) (n : Z) : list nat :=
  let tmp := get tosort (pl + n - 1) in
  let tosort := set tosort (pl + n - 1) (get tosort pl) in
  let n := n - 1 in
  let '(tosort, i) := sift_down (length tosort) tosort pl tmp n 1 2 in
  set tosort (pl + i - 1) tmp.

Definition aheapsort (tosort : list nat) (pl n : Z) : list nat :=
  let down k := rev (map (fun i => Z.of_nat i + 1) (seq 0 k)) in
  let tosort := fold_left (heapify_at pl n) (down (Z.to_nat (Z.shiftr n 1))) tosort in
  fold_left (extract_at pl) (map (fun k => k + 1) (down (Z.to_nat (n - 1)))) tosort.

(** The [while (1)] loop: a range is heap-sorted when its budget is used up,
    and otherwise partitioned down to a short range that is sorted by
    insertion; then the next range is popped. *)
Fixpoint aquicksort_loop (steps : nat) (st : state) : list nat :=
  match steps with
  | O => tosort_ st
  | S steps' =>
      let '(tosort, stack) :=
        if cdepth_ st <? 0
        then (aheapsort (tosort_ st) (pl_ st) (pr_ st - pl_ st + 1), stack_ st)
        else
          let st := quicksort_loop (length (tosort_ st)) st in
          (insertion_sort (tosort_ st) (pl_ st) (pr_ st), stack_ st) in
      match stack with
      | [] => tosort
      | (pl, pr, cdepth) :: stack' =>
          aquicksort_loop steps'
            {| tosort_ := tosort; pl_ := pl; pr_ := pr; cdepth_ := cdepth; stack_ := stack' |}
      end
  end.

End Kernel.

Definition npy_get_msb (unum : Z) : Z := Z.log2 unum.

Definition aquicksort (v : list Z) (tosort : list nat) : list nat :=
  let num := Z.of_nat (length tosort) in
  aquicksort_loop v (S (length tosort))
    {| tosort_ := tosort; pl_ := 0; pr_ := num - 1; cdepth_ := npy_get_msb num * 2;
       stack_ := [] |}.

End npysort.

(** [np.argsort(a, kind='quicksort')] on a column of integers, with the
    scalar kernel. *)
Definition np_argsort (a : list Z) : list nat :=
  npysort.aquicksort a (seq 0 (length a)).

(** A kernel that keeps equal values in the order of their positions, as
    [kind='stable'] does. *)
Fixpoint insert_position (a : list Z) (i : nat) (l : list nat) : list nat :=
  match l with
  | [] => [i]
  | j :: l' => if nth i a 0 <=? nth j a 0 then i :: l else j :: insert_position a i l'
  end.

Definition argsort_stable (a : list Z) : list nat :=
  fold_right (insert_position a) [] (seq 0 (length a)).

(* ================================================================== *)
(** ** Vocabulary of the statements *)

(** The strict order of the keys. *)
Definition key_lt {K : Type} `{Compare K} (a b : K) : Prop := cmp a b = Lt.

(** [p] occurs in [s]: the meaning of an unanchored, case-sensitive search for
    a literal phrase. *)
Definition occurs_in (p s : str) : Prop := exists pre post, s = pre ++ p ++ post.

(** What a cell of a date column is read as: nothing for an empty cell. *)
Definition read_cell (parse : str -> option Timestamp) (cell : option str)
  : option Timestamp :=
  match cell with
  | Some c => parse c
  | None => None
  end.

(** The date of a raw row, as [pd.to_datetime] reads its cell in the date
    column of the frame [df]. *)
Definition raw_date (to_datetime : list (option str) -> str -> option Timestamp)
  (df : list Raw.row) (r : Raw.row) : option Timestamp :=
  read_cell (to_datetime (map Raw.dateprel df)) (Raw.dateprel r).

(** The (year, month, commune) tuple of a raw row of the frame [df]: the year
    and month of its date and its commune name in upper case. A row with an
    empty date cell or an empty commune cell has none. *)
Definition raw_key (to_datetime : list (option str) -> str -> option Timestamp)
  (df : list Raw.row) (r : Raw.row) : option (Z * Z * str) :=
  match raw_date to_datetime df r, Raw.nomcommuneprinc r with
  | Some t, Some c => Some (ts_year t, ts_month t, str_upper c)
  | _, _ => None
  end.

(** The filter of line 24, read on a raw row. *)
Definition matches_filter (r : Raw.row) : bool :=
  str_contains non_conforme false (Raw.conclusionprel r).

(** The row has both a date and a commune. *)
Definition has_key_cells (r : Raw.row) : bool :=
  is_text (Raw.dateprel r) && is_text (Raw.nomcommuneprinc r).

(** The raw rows of [df] that match the filter and carry the tuple [k]. *)
Definition matching_rows (to_datetime : list (option str) -> str -> option Timestamp)
  (df : list Raw.row) (k : Z * Z * str) : list Raw.row :=
  filter (fun r => matches_filter r &&
                   match raw_key to_datetime df r with
                   | Some k' => key_eqb k' k
                   | None => false
                   end) df.

(** The tuples of the rows that match the filter and have one, in row
    order. *)
Definition counted_keys (to_datetime : list (option str) -> str -> option Timestamp)
  (df : list Raw.row) : list (Z * Z * str) :=
  observed_keys (raw_key to_datetime df) (filter matches_filter df).

(** Every date cell of the frame that is not empty can be read. *)
Definition dates_readable (to_datetime : list (option str) -> str -> option Timestamp)
  (df : list Raw.row) : Prop :=
  forall r cell, In r df -> Raw.dateprel r = Some cell ->
    to_datetime (map Raw.dateprel df) cell <> None.

(** A frame on which no step of the transformer raises: its dates can be
    read, and its commune and conclusion columns are text columns. *)
Definition transformable (to_datetime : list (option str) -> str -> option Timestamp)
  (df : list Raw.row) : Prop :=
  dates_readable to_datetime df /\
  text_column (map Raw.nomcommuneprinc df) = true /\
  text_column (map Raw.conclusionprel df) = true.

(** What one input file contributes: its rows, transformed on their own. *)
Definition per_file (to_datetime : list (option str) -> str -> option Timestamp)
  (read_csv : string -> result (list Raw.row)) (file_path : string) : result DataFrame :=
  df <- read_csv file_path ;;
  process_dataframe to_datetime df.

(** The files of a run, in the order in which the loops visit them. *)
Definition input_files (glob : Z -> list string) (year_range : list Z) : list string :=
  flat_map glob year_range.

(** The running result after the tables [outs] have been appended in turn. *)
Definition concat_all (df_combined : DataFrame) (outs : list DataFrame) : DataFrame :=
  fold_left pd_concat outs df_combined.

(** Rows of a table that carry a given key. *)
Definition rows_with_key (k : Z * Z * str) (rows : list Agg.row) : list Agg.row :=
  filter (fun g => key_eqb (Agg.key g) k) rows.

(** [out] has a row for the key. *)
Definition has_key (k : Z * Z * str) (out : DataFrame) : bool :=
  existsb (fun g => key_eqb (Agg.key g) k) (records out).

(** The grouping key of the heatmap stage. *)
Definition year_month (r : Agg.row) : Z * Z := (Agg.year r, Agg.month r).

(** The rows of a (month, year) pair, whatever their commune, and the total
    of their counts. *)
Definition month_year_rows (m y : Z) (rows : list Agg.row) : list Agg.row :=
  filter (fun r => (Agg.year r =? y) && (Agg.month r =? m)) rows.

Definition month_year_total (m y : Z) (rows : list Agg.row) : Z :=
  Zsum (map Agg.count (month_year_rows m y rows)).

(** A frame with the columns of the aggregated count table. *)
Definition count_table (df : DataFrame) : Prop :=
  columns df = ["year"; "month"; "nomcommuneprinc"; "count"]%string.

(** [a] may stand before [b] in a ranking by decreasing count. *)
Definition non_increasing (a b : str * Z) : Prop := snd b <= snd a.

(** What [sort_values('count', ascending=False)] promises with the default
    sorting algorithm, which is not a stable one: the rows of its argument,
    by non-increasing count. *)
Definition sort_contract (sort_values : list (str * Z) -> list (str * Z)) : Prop :=
  (forall l, Permutation (sort_values l) l) /\
  (forall l, StronglySorted non_increasing (sort_values l)).

(** What [np.argsort] promises of a kernel on the column [a]: the positions
    of [a], ordered by non-decreasing value. *)
Definition sorts_ascending (argsort : list Z -> list nat) (a : list Z) : Prop :=
  Permutation (argsort a) (seq 0 (length a)) /\
  StronglySorted Z.le (map (fun i => nth i a 0) (argsort a)).

(** Rows of equal count keep the order they have in [groups]. *)
Definition ties_in_order (groups out : list (str * Z)) : Prop :=
  forall c, filter (fun r => snd r =? c) out = filter (fun r => snd r =? c) groups.

(** The sum of the counts of a commune over all years and months. *)
Definition commune_total (c : str) (rows : list Agg.row) : Z :=
  Zsum (map Agg.count (filter (fun r => str_eqb (Agg.nomcommuneprinc r) c) rows)).

(** The row that a boundary feature gets in the join with a table that has
    one row per commune: its partner's count, or zero. *)
Definition joined_row (df : list (str * Z)) (g : Feature) : Merged.row :=
  match find (fun r => str_eqb (nom g) (fst r)) df with
  | Some r => Merged.mk (nom g) (geometry g) (Some (fst r)) (Some (snd r))
  | None => Merged.mk (nom g) (geometry g) None (Some 0)
  end.

(** An entry whose count lies above the cutoff. *)
Definition exceeds (cap : Q) (r : Merged.row) : bool :=
  match Merged.count r with
  | Some v => negb (Qle_bool (inject_Z v) cap)
  | None => false
  end.

(* ================================================================== *)
(** ** Example inputs *)

(** The rows of the worked example: commune Ajaccio, March 2020. *)
Definition sample (dateprel nomcommuneprinc conclusionprel : string) : Raw.row :=
  Raw.mk (Some (lit dateprel)) (Some (lit nomcommuneprinc)) (Some (lit conclusionprel)).

Definition ajaccio_march_2020 : list Raw.row :=
  [sample "2020-03-02" "Ajaccio" "Eau d'alimentation non-conforme";
   sample "2020-03-09" "Ajaccio" "Eau d'alimentation non-conforme";
   sample "2020-03-16" "Ajaccio" "Eau d'alimentation non conforme";
   sample "2020-03-23" "Ajaccio" "Eau conforme"].

(** Two non-conforming samples of March 2020, the first without commune. *)
Definition sample_without_commune : list Raw.row :=
  [Raw.mk (Some (lit "2020-03-02")) None (Some (lit "Eau d'alimentation non-conforme"));
   sample "2020-03-09" "Ajaccio" "Eau d'alimentation non-conforme"].

(** Two non-conforming samples of Ajaccio, the first without date. *)
Definition sample_without_date : list Raw.row :=
  [Raw.mk None (Some (lit "Ajaccio")) (Some (lit "Eau d'alimentation non-conforme"));
   sample "2020-03-09" "Ajaccio" "Eau d'alimentation non-conforme"].

(** An input set in which year 2016 has two files, each with one
    non-conforming sample taken in Ajaccio in March 2016. *)
Definition two_files_glob (year : Z) : list string :=
  if year =? 2016
  then ["./dataset/DIS_PLV_2016_1.txt"; "./dataset/DIS_PLV_2016_2.txt"]%string
  else [].

Definition two_files_read (file_path : string) : result (list Raw.row) :=
  if String.eqb file_path "./dataset/DIS_PLV_2016_1.txt"
  then Ok [sample "2016-03-01" "Ajaccio" "Eau d'alimentation non-conforme"]
  else if String.eqb file_path "./dataset/DIS_PLV_2016_2.txt"
  then Ok [sample "2016-03-15" "Ajaccio" "Eau d'alimentation non-conforme"]
  else Raise (FileNotFoundError file_path).

(** An aggregated table of 360 communes, named AA, AB, ... in alphabetical
    order, with 1, 3, 2, 1, 3, 2, ... samples in January 2020. *)
Definition three_sixty_communes : DataFrame :=
  {| columns := ["year"; "month"; "nomcommuneprinc"; "count"]%string;
     records := map (fun i => Agg.mk 2020 1 [N.of_nat (65 + i / 26); N.of_nat (65 + i mod 26)]
                                     (nth (i mod 3) [1; 3; 2] 0))
                    (seq 0 360) |}.

(** A run with one input file, holding one non-conforming sample whose
    commune is written with an accented capital A, and a boundary file with
    the polygon of Ajaccio. *)
Definition accented_glob (year : Z) : list string :=
  if year =? 2016 then ["./dataset/DIS_PLV_2016_02A.txt"]%string else [].

Definition accented_read_csv (file_path : string) : result (list Raw.row) :=
  Ok [Raw.mk (Some (lit "2016-03-01")) (Some ([195%N] ++ lit "jaccio"))
             (Some (lit "Eau d'alimentation non-conforme"))].

Definition accented_read_file (file_path : string) : result (list Feature) :=
  Ok [{| nom := lit "Ajaccio"; geometry := [] |}].

(* ================================================================== *)
(** ** Vocabulary of the further properties *)

(** The code points that the tables of [upper_char] and [unidecode_char]
    cover: ASCII, the Latin-1 letters and the letters U+0152, U+0153, U+0178. *)
Definition in_repertoire (c : codepoint) : bool :=
  ((c <? 128) || ((192 <=? c) && (c <=? 255)) || (c =? 338) || (c =? 339) || (c =? 376))%N.

(** A code point of a normalized name: ASCII, and no lower-case letter. *)
Definition is_key_char (c : codepoint) : bool :=
  ((c <? 128) && negb ((97 <=? c) && (c <=? 122)))%N.


(** The glob matches at least one file for the year. *)
Definition has_files (glob : Z -> list string) (year : Z) : bool :=
  match glob year with
  | [] => false
  | _ :: _ => true
  end.


(** An entry of the joined dataset with at least one occurrence. *)
Definition positive_count (r : Merged.row) : bool :=
  match Merged.count r with
  | Some v => 0 <? v
  | None => false
  end.

(** Forty-one boundary polygons, one of which (the first) has samples. *)
Definition forty_one_polygons : list Feature :=
  map (fun i => {| nom := [N.of_nat i]; geometry := [] |}) (seq 65 41).

(* ================================================================== *)
(** * Properties *)

(** ** The key order is a total order *)

#[export] Instance Z_CompareLaws : CompareLaws Z.
Proof.
  split; unfold cmp, Z_Compare.
  - apply Z.compare_eq_iff.
  - intros a b. apply Z.compare_antisym.
  - intros a b c. rewrite !Z.compare_lt_iff. lia.
Qed.

#[export] Instance N_CompareLaws : CompareLaws N.
Proof.
  split; unfold cmp, N_Compare.
  - apply N.compare_eq_iff.
  - intros a b. apply N.compare_antisym.
  - intros a b c. rewrite !N.compare_lt_iff. lia.
Qed.

Section OrderFacts.

Context {K : Type} `{CompareLaws K}.

Lemma cmp_refl (a : K) : cmp a a = Eq.
Proof. now apply cmp_eq. Qed.

Lemma cmp_gt_lt (a b : K) : cmp a b = Gt -> cmp b a = Lt.
Proof. intros E. rewrite cmp_antisym, E. reflexivity. Qed.

Lemma cmp_lt_neq (a b : K) : cmp a b = Lt -> a <> b.
Proof. intros E ->. rewrite cmp_refl in E. discriminate. Qed.

Lemma key_eqb_eq (a b : K) : key_eqb a b = true <-> a = b.
Proof.
  unfold key_eqb. rewrite <- cmp_eq.
  destruct (cmp a b); split; intros E; congruence.
Qed.

Lemma key_eqb_refl (a : K) : key_eqb a a = true.
Proof. now apply key_eqb_eq. Qed.

Lemma key_eqb_neq (a b : K) : key_eqb a b = false <-> a <> b.
Proof.
  rewrite <- key_eqb_eq. destruct (key_eqb a b); split; congruence.
Qed.

End OrderFacts.

#[export] Instance list_CompareLaws {A : Type} `{CompareLaws A} : CompareLaws (list A).
Proof.
  split; unfold cmp, list_Compare.
  - induction a as [|x a IH]; intros [|y b]; simpl; try (split; congruence).
    destruct (cmp x y) eqn:E.
    + apply cmp_eq in E. subst y. rewrite IH. split; congruence.
    + split; [discriminate|]. intros [= -> _]. rewrite cmp_refl in E. discriminate.
    + split; [discriminate|]. intros [= -> _]. rewrite cmp_refl in E. discriminate.
  - induction a as [|x a IH]; intros [|y b]; simpl; try reflexivity.
    rewrite (cmp_antisym x y). destruct (cmp x y); simpl; auto.
  - induction a as [|x a IH]; intros [|y b] [|z c]; simpl; try congruence.
    destruct (cmp x y) eqn:Exy; try discriminate.
    + apply cmp_eq in Exy. subst y. destruct (cmp x z); auto. apply IH.
    + destruct (cmp y z) eqn:Eyz; try discriminate.
      * apply cmp_eq in Eyz. subst z. now rewrite Exy.
      * now rewrite (cmp_trans _ _ _ Exy Eyz).
Qed.

#[export] Instance prod_CompareLaws {A B : Type} `{CompareLaws A} `{CompareLaws B} :
  CompareLaws (A * B).
Proof.
  split; unfold cmp, prod_Compare, prod_cmp.
  - intros [a1 b1] [a2 b2]; simpl. destruct (cmp a1 a2) eqn:E.
    + apply cmp_eq in E. subst a2. rewrite cmp_eq. split; congruence.
    + split; [discriminate|]. intros [= -> _]. rewrite cmp_refl in E. discriminate.
    + split; [discriminate|]. intros [= -> _]. rewrite cmp_refl in E. discriminate.
  - intros [a1 b1] [a2 b2]; simpl. rewrite (cmp_antisym a1 a2).
    destruct (cmp a1 a2); simpl; auto. apply cmp_antisym.
  - intros [a1 b1] [a2 b2] [a3 b3]; simpl.
    destruct (cmp a1 a2) eqn:E12; try discriminate.
    + apply cmp_eq in E12. subst a2. destruct (cmp a1 a3); auto. apply cmp_trans.
    + destruct (cmp a2 a3) eqn:E23; try discriminate.
      * apply cmp_eq in E23. subst a3. now rewrite E12.
      * now rewrite (cmp_trans _ _ _ E12 E23).
Qed.

(** ** Group keys: sorted, distinct, and exactly the keys of the rows *)

Section GroupKeys.

Context {K : Type} `{CompareLaws K}.

Lemma in_insert_key (x k : K) (l : list K) :
  In x (insert_key k l) <-> x = k \/ In x l.
Proof.
  induction l as [|h t IH]; simpl.
  - intuition.
  - destruct (cmp k h) eqn:E; simpl.
    + apply cmp_eq in E. subst h. intuition.
    + intuition.
    + rewrite IH. intuition.
Qed.

Lemma insert_key_sorted (k : K) (l : list K) :
  StronglySorted key_lt l -> StronglySorted key_lt (insert_key k l).
Proof.
  induction 1 as [|h t Hs IH Hh]; simpl.
  - repeat constructor.
  - destruct (cmp k h) eqn:E.
    + now constructor.
    + constructor. { now constructor. }
      constructor; [exact E|].
      eapply Forall_impl; [|exact Hh]. intros b Hb. exact (cmp_trans _ _ _ E Hb).
    + constructor; [exact IH|].
      apply Forall_forall. intros x Hx. apply in_insert_key in Hx.
      destruct Hx as [->|Hx].
      * now apply cmp_gt_lt.
      * rewrite Forall_forall in Hh. now apply Hh.
Qed.

Lemma group_keys_sorted (l : list K) : StronglySorted key_lt (group_keys l).
Proof.
  induction l; simpl; [constructor|]. now apply insert_key_sorted.
Qed.

Lemma sorted_NoDup (l : list K) : StronglySorted key_lt l -> NoDup l.
Proof.
  induction 1 as [|h t Hs IH Hh]; constructor; auto.
  intros Hin. rewrite Forall_forall in Hh. apply Hh in Hin.
  now apply cmp_lt_neq in Hin.
Qed.

Lemma group_keys_NoDup (l : list K) : NoDup (group_keys l).
Proof. apply sorted_NoDup, group_keys_sorted. Qed.

Lemma in_group_keys (x : K) (l : list K) : In x (group_keys l) <-> In x l.
Proof.
  induction l as [|a l IH]; simpl; [tauto|].
  rewrite in_insert_key, IH. intuition.
Qed.

End GroupKeys.

(** ** groupby: one row per key, and nothing lost *)

Lemma Zsum_app (a b : list Z) : Zsum (a ++ b) = Zsum a + Zsum b.
Proof. induction a; simpl; lia. Qed.

Lemma Zsum_map_add {A : Type} (f g : A -> Z) (l : list A) :
  Zsum (map (fun x => f x + g x) l) = Zsum (map f l) + Zsum (map g l).
Proof. induction l; simpl; lia. Qed.

Section GroupBy.

Context {K A : Type} `{CompareLaws K}.
Variable by_ : A -> K.

Lemma groupby_size_keys (df : list A) :
  map fst (groupby_size by_ df) = group_keys (map by_ df).
Proof.
  unfold groupby_size. rewrite map_map. simpl. apply map_id.
Qed.

Lemma groupby_sum_keys (col : A -> Z) (df : list A) :
  map fst (groupby_sum by_ col df) = group_keys (map by_ df).
Proof.
  unfold groupby_sum. rewrite map_map. simpl. apply map_id.
Qed.

Lemma in_groupby_size (k : K) (n : Z) (df : list A) :
  In (k, n) (groupby_size by_ df) <->
  In k (map by_ df) /\ n = Z.of_nat (length (group by_ k df)).
Proof.
  unfold groupby_size. rewrite in_map_iff. split.
  - intros (k' & [= <- <-] & Hin). now rewrite in_group_keys in Hin.
  - intros (Hin & ->). exists k. now rewrite in_group_keys.
Qed.

Lemma in_groupby_sum (col : A -> Z) (k : K) (v : Z) (df : list A) :
  In (k, v) (groupby_sum by_ col df) <->
  In k (map by_ df) /\ v = Zsum (map col (group by_ k df)).
Proof.
  unfold groupby_sum. rewrite in_map_iff. split.
  - intros (k' & [= <- <-] & Hin). now rewrite in_group_keys in Hin.
  - intros (Hin & ->). exists k. now rewrite in_group_keys.
Qed.

Lemma group_nonempty (r : A) (df : list A) :
  In r df -> (0 < length (group by_ (by_ r) df))%nat.
Proof.
  intros Hin. unfold group.
  assert (Hr : In r (filter (fun r0 => key_eqb (by_ r0) (by_ r)) df)).
  { apply filter_In. split; [exact Hin | apply key_eqb_refl]. }
  destruct (filter _ df); [destruct Hr | simpl; lia].
Qed.

(** A key that is listed once selects exactly one of the groups. *)
Lemma one_group (col : A -> Z) (r : A) (ks : list K) :
  NoDup ks -> In (by_ r) ks ->
  Zsum (map (fun k => if key_eqb (by_ r) k then col r else 0) ks) = col r.
Proof.
  induction 1 as [|k ks Hk Hnd IH]; simpl; [tauto|].
  intros [->|Hin].
  - rewrite key_eqb_refl.
    assert (E : Zsum (map (fun k => if key_eqb (by_ r) k then col r else 0) ks) = 0).
    { clear IH Hnd. induction ks as [|k ks IHk]; simpl; [reflexivity|].
      destruct (key_eqb (by_ r) k) eqn:Ek.
      - apply key_eqb_eq in Ek. subst k. destruct Hk. now left.
      - rewrite IHk; [reflexivity|]. intros Hin. apply Hk. now right. }
    lia.
  - destruct (key_eqb (by_ r) k) eqn:Ek.
    + apply key_eqb_eq in Ek. subst k. contradiction.
    + rewrite IH by assumption. lia.
Qed.

(** The group totals over a duplicate-free list of keys that covers the rows
    add up to the total of the column. *)
Lemma groups_partition (col : A -> Z) (ks : list K) (df : list A) :
  NoDup ks -> (forall r, In r df -> In (by_ r) ks) ->
  Zsum (map (fun k => Zsum (map col (group by_ k df))) ks) = Zsum (map col df).
Proof.
  intros Hnd. induction df as [|r df IH]; intros Hcov.
  - simpl. clear. induction ks; simpl; lia.
  - simpl.
    rewrite <- IH by (intros; apply Hcov; now right).
    rewrite <- (one_group col r ks Hnd) at 1 by (apply Hcov; now left).
    rewrite <- Zsum_map_add. f_equal. apply map_ext. intros k.
    unfold group. simpl. destruct (key_eqb (by_ r) k); simpl; lia.
Qed.

Lemma groupby_sum_total (col : A -> Z) (df : list A) :
  Zsum (map snd (groupby_sum by_ col df)) = Zsum (map col df).
Proof.
  unfold groupby_sum. rewrite map_map. simpl.
  apply groups_partition.
  - apply group_keys_NoDup.
  - intros r Hr. apply in_group_keys. now apply in_map.
Qed.

Lemma length_as_sum (l : list A) : Z.of_nat (length l) = Zsum (map (fun _ => 1) l).
Proof.
  induction l as [|a l IH]; [reflexivity|].
  change (Z.of_nat (S (length l)) = 1 + Zsum (map (fun _ => 1) l)). lia.
Qed.

Lemma groupby_size_total (df : list A) :
  Zsum (map snd (groupby_size by_ df)) = Z.of_nat (length df).
Proof.
  unfold groupby_size. rewrite map_map. simpl.
  rewrite (length_as_sum df).
  rewrite <- (groups_partition (fun _ => 1) (group_keys (map by_ df)) df).
  - f_equal. apply map_ext. intros k. apply length_as_sum.
  - apply group_keys_NoDup.
  - intros r Hr. apply in_group_keys. now apply in_map.
Qed.

End GroupBy.

(** ** Substring search *)

Lemma startswith_spec (p s : str) :
  startswith p s = true <-> exists post, s = p ++ post.
Proof.
  revert s. induction p as [|a p IH]; intros s; simpl.
  - split; [intros _; now exists s | reflexivity].
  - destruct s as [|b s].
    + split; [discriminate | intros (post & E); discriminate].
    + rewrite andb_true_iff, N.eqb_eq, IH. split.
      * intros (-> & post & ->). now exists post.
      * intros (post & [= -> ->]). split; [reflexivity | now exists post].
Qed.

Lemma str_in_spec (p s : str) : str_in p s = true <-> occurs_in p s.
Proof.
  unfold occurs_in. induction s as [|b s IH].
  - simpl. rewrite orb_false_r, startswith_spec. split.
    + intros (post & E). now exists [], post.
    + intros (pre & post & E). symmetry in E.
      apply app_eq_nil in E as (-> & E). apply app_eq_nil in E as (-> & ->).
      now exists [].
  - simpl. rewrite orb_true_iff, startswith_spec, IH. split.
    + intros [(post & E)|(pre & post & E)].
      * now exists [], post.
      * exists (b :: pre), post. simpl. now rewrite E.
    + intros ([|c pre] & post & E).
      * left. now exists post.
      * right. injection E as _ E. now exists pre, post.
Qed.

(** ** The transformer *)

Lemma parse_cells_ok (parse : str -> option Timestamp) (col : list (option str)) :
  (forall cell, In (Some cell) col -> parse cell <> None) ->
  parse_cells parse col = Ok (map (read_cell parse) col).
Proof.
  induction col as [|[cell|] col IH]; intros Hr; simpl.
  - reflexivity.
  - destruct (parse cell) as [t|] eqn:Et.
    + rewrite IH by (intros c Hc; apply Hr; now right). reflexivity.
    + destruct (Hr cell); [now left | exact Et].
  - rewrite IH by (intros c Hc; apply Hr; now right). reflexivity.
Qed.

Lemma parse_cells_first_unreadable (parse : str -> option Timestamp)
  (col : list (option str)) :
  (forall cell, In (Some cell) col -> parse cell <> None) \/
  exists pre cell post,
    col = pre ++ Some cell :: post /\
    (forall c, In (Some c) pre -> parse c <> None) /\
    parse cell = None /\
    parse_cells parse col = Raise (DateParseError cell).
Proof.
  induction col as [|c col IH].
  - left. intros cell [].
  - destruct c as [c|].
    + destruct (parse c) as [t|] eqn:Et.
      * destruct IH as [Hr|(pre & cell & post & -> & Hpre & Ecell & Ep)].
        -- left. intros cell [[= <-]|Hin]; [congruence | now apply Hr].
        -- right. exists (Some c :: pre), cell, post.
           split; [reflexivity|]. split; [|split; [exact Ecell|]].
           ++ intros c' [[= <-]|Hin]; [congruence | now apply Hpre].
           ++ simpl. now rewrite Et, Ep.
      * right. exists [], c, col.
        split; [reflexivity|]. split; [intros c' []|]. split; [exact Et|].
        simpl. now rewrite Et.
    + destruct IH as [Hr|(pre & cell & post & -> & Hpre & Ecell & Ep)].
      * left. intros cell [E|Hin]; [discriminate | now apply Hr].
      * right. exists (None :: pre), cell, post.
        split; [reflexivity|]. split; [|split; [exact Ecell|]].
        -- intros c' [E|Hin]; [discriminate | now apply Hpre].
        -- simpl. now rewrite Ep.
Qed.

Lemma frame_map {A : Type} (f : A -> option Timestamp) (g h : A -> option str)
  (l : list A) :
  frame (map f l) (map g l) (map h l) =
  map (fun r => Sample.mk (f r) (option_map ts_month (f r)) (option_map ts_year (f r))
                          (g r) (h r)) l.
Proof. induction l as [|r l IH]; simpl; [reflexivity | now rewrite IH]. Qed.

Lemma boolean_index_map {A B : Type} (p : A -> bool) (f : A -> B) (l : list A) :
  boolean_index (map p l) (map f l) = map f (filter p l).
Proof.
  unfold boolean_index. induction l as [|r l IH]; simpl; [reflexivity|].
  destruct (p r); simpl; now rewrite IH.
Qed.

Lemma observed_keys_map {A B K : Type} (f : A -> B) (by_ : B -> option K) (l : list A) :
  observed_keys by_ (map f l) = observed_keys (fun r => by_ (f r)) l.
Proof.
  unfold observed_keys. induction l as [|r l IH]; simpl; [reflexivity | now rewrite IH].
Qed.

Lemma in_observed_keys {A K : Type} (by_ : A -> option K) (l : list A) (k : K) :
  In k (observed_keys by_ l) <-> exists r, In r l /\ by_ r = Some k.
Proof.
  unfold observed_keys. rewrite in_flat_map. split.
  - intros (r & Hr & Hk). exists r. split; [exact Hr|].
    destruct (by_ r) as [k'|]; [|destruct Hk]. destruct Hk as [->|[]]. reflexivity.
  - intros (r & Hr & E). exists r. split; [exact Hr|]. rewrite E. now left.
Qed.

Lemma length_observed_keys {A K : Type} (by_ : A -> option K) (l : list A) :
  length (observed_keys by_ l) = length (filter (fun r => is_text (by_ r)) l).
Proof.
  unfold observed_keys. induction l as [|r l IH]; simpl; [reflexivity|].
  destruct (by_ r); simpl; now rewrite IH.
Qed.

Lemma length_group_observed {A K : Type} `{Compare K} (by_ : A -> option K) (k : K)
  (l : list A) :
  length (group (fun k' => k') k (observed_keys by_ l)) =
  length (filter (fun r => match by_ r with
                           | Some k' => key_eqb k' k
                           | None => false
                           end) l).
Proof.
  unfold group, observed_keys. induction l as [|r l IH]; simpl; [reflexivity|].
  destruct (by_ r) as [k'|]; simpl; [|exact IH].
  destruct (key_eqb k' k); simpl; now rewrite IH.
Qed.

Lemma filter_filter {A : Type} (p q : A -> bool) (l : list A) :
  filter q (filter p l) = filter (fun r => p r && q r) l.
Proof.
  induction l as [|r l IH]; simpl; [reflexivity|].
  destruct (p r); simpl; [destruct (q r)|]; now rewrite IH.
Qed.

Lemma NoDup_map_inj {A B : Type} (f : A -> B) (l : list A) (a b : A) :
  NoDup (map f l) -> In a l -> In b l -> f a = f b -> a = b.
Proof.
  induction l as [|x l IH]; simpl; [tauto|].
  intros Hnd Ha Hb E. inversion Hnd as [|? ? Hx Hl]; subst.
  destruct Ha as [->|Ha], Hb as [->|Hb]; auto.
  - destruct Hx. rewrite E. now apply in_map.
  - destruct Hx. rewrite <- E. now apply in_map.
Qed.

Lemma matches_filter_spec (r : Raw.row) :
  matches_filter r = true <->
  exists text, Raw.conclusionprel r = Some text /\
    (occurs_in (lit "Eau d'alimentation non-conforme") text \/
     occurs_in (lit "Eau d'alimentation non conforme") text).
Proof.
  unfold matches_filter, str_contains, non_conforme.
  destruct (Raw.conclusionprel r) as [text|].
  - cbn [existsb]. rewrite orb_false_r, orb_true_iff, !str_in_spec. split.
    + intros Hc. now exists text.
    + now intros (text' & [= <-] & Hc).
  - split; [discriminate | intros (text & E & _); discriminate].
Qed.

Section TransformerFacts.

Variable to_datetime : list (option str) -> str -> option Timestamp.

(** The group key that the working frame gives a row is the tuple read on
    the raw row. *)
Lemma sample_key_raw (df : list Raw.row) (r : Raw.row) :
  sample_key (Sample.mk (raw_date to_datetime df r)
                        (option_map ts_month (raw_date to_datetime df r))
                        (option_map ts_year (raw_date to_datetime df r))
                        (option_map str_upper (Raw.nomcommuneprinc r))
                        (Raw.conclusionprel r)) =
  raw_key to_datetime df r.
Proof.
  unfold sample_key, raw_key. simpl.
  destruct (raw_date to_datetime df r) as [t|]; simpl; [|reflexivity].
  destruct (Raw.nomcommuneprinc r); reflexivity.
Qed.

Lemma raw_key_cells (df : list Raw.row) (r : Raw.row) :
  dates_readable to_datetime df -> In r df ->
  is_text (raw_key to_datetime df r) = has_key_cells r.
Proof.
  intros Hd Hr. unfold raw_key, raw_date, has_key_cells, read_cell.
  destruct (Raw.dateprel r) as [cell|] eqn:Ec; simpl; [|reflexivity].
  destruct (to_datetime (map Raw.dateprel df) cell) as [t|] eqn:Et.
  - now destruct (Raw.nomcommuneprinc r).
  - now destruct (Hd r cell Hr Ec).
Qed.

Lemma process_dataframe_ok (df : list Raw.row) :
  transformable to_datetime df ->
  process_dataframe to_datetime df =
    Ok {| columns := ["year"; "month"; "nomcommuneprinc"; "count"]%string;
          records :=
            map (fun g => Agg.mk (fst (fst (fst g))) (snd (fst (fst g))) (snd (fst g)) (snd g))
                (groupby_size (fun k => k) (counted_keys to_datetime df)) |}.
Proof.
  intros (Hd & Hc & Hk). unfold process_dataframe.
  rewrite parse_cells_ok.
  2:{ intros cell Hin. apply in_map_iff in Hin as (r & Er & Hr). now apply (Hd r). }
  unfold Series_str_upper, Series_str_contains, str_accessor. rewrite Hc, Hk.
  cbn [bind]. rewrite !map_map.
  change (map (fun x => str_contains non_conforme false (Raw.conclusionprel x)) df)
    with (map matches_filter df).
  change (map (fun x => read_cell (to_datetime (map Raw.dateprel df)) (Raw.dateprel x)) df)
    with (map (raw_date to_datetime df) df).
  rewrite (frame_map (raw_date to_datetime df)
             (fun x => option_map str_upper (Raw.nomcommuneprinc x)) Raw.conclusionprel).
  rewrite boolean_index_map, observed_keys_map.
  do 4 f_equal. unfold counted_keys, observed_keys.
  apply flat_map_ext. intros r. now rewrite sample_key_raw.
Qed.

Lemma process_dataframe_transformable (df : list Raw.row) (out : DataFrame) :
  process_dataframe to_datetime df = Ok out -> transformable to_datetime df.
Proof.
  unfold process_dataframe, transformable.
  destruct (parse_cells_first_unreadable (to_datetime (map Raw.dateprel df))
              (map Raw.dateprel df)) as [Hr|(pre & cell & post & _ & _ & _ & ->)];
    [|discriminate].
  rewrite (parse_cells_ok _ _ Hr).
  unfold Series_str_upper, Series_str_contains, str_accessor. cbn [bind].
  destruct (text_column (map Raw.nomcommuneprinc df)); cbn [bind]; [|discriminate].
  destruct (text_column (map Raw.conclusionprel df)); cbn [bind]; [|discriminate].
  intros _. repeat split.
  intros r cell Hin Ec. apply Hr. rewrite <- Ec. now apply in_map.
Qed.

Lemma process_dataframe_records (df : list Raw.row) (out : DataFrame) :
  process_dataframe to_datetime df = Ok out ->
  count_table out /\
  map (fun g => (Agg.key g, Agg.count g)) (records out) =
  groupby_size (fun k => k) (counted_keys to_datetime df).
Proof.
  intros Eo. pose proof (process_dataframe_transformable df out Eo) as Ht.
  rewrite (process_dataframe_ok df Ht) in Eo. injection Eo as <-.
  split; [reflexivity|]. cbn [records].
  rewrite map_map. unfold Agg.key. simpl.
  rewrite <- (map_id (groupby_size _ _)) at 2.
  apply map_ext. now intros [[[y m] c] n].
Qed.

Lemma process_dataframe_keys (df : list Raw.row) (out : DataFrame) :
  process_dataframe to_datetime df = Ok out ->
  map Agg.key (records out) = group_keys (counted_keys to_datetime df).
Proof.
  intros Eo. destruct (process_dataframe_records df out Eo) as (_ & Er).
  rewrite <- (map_id (counted_keys to_datetime df)).
  rewrite <- (groupby_size_keys (fun k => k)), <- Er, map_map. reflexivity.
Qed.

Lemma process_dataframe_NoDup (df : list Raw.row) (out : DataFrame) :
  process_dataframe to_datetime df = Ok out -> NoDup (map Agg.key (records out)).
Proof.
  intros Eo. rewrite (process_dataframe_keys df out Eo). apply group_keys_NoDup.
Qed.

(** The count of a row of the result is the number of raw rows that match
    the filter and carry its tuple. *)
Lemma process_dataframe_count (df : list Raw.row) (out : DataFrame) (g : Agg.row) :
  process_dataframe to_datetime df = Ok out -> In g (records out) ->
  In (Agg.key g) (counted_keys to_datetime df) /\
  Agg.count g = Z.of_nat (length (matching_rows to_datetime df (Agg.key g))).
Proof.
  intros Eo Hg. destruct (process_dataframe_records df out Eo) as (_ & Er).
  assert (Hin : In (Agg.key g, Agg.count g)
                   (groupby_size (fun k => k) (counted_keys to_datetime df))).
  { rewrite <- Er. now apply (in_map (fun g => (Agg.key g, Agg.count g))). }
  apply in_groupby_size in Hin as (Hk & ->). rewrite map_id in Hk.
  split; [exact Hk|]. f_equal.
  unfold counted_keys, matching_rows. now rewrite length_group_observed, filter_filter.
Qed.

Lemma process_dataframe_total (df : list Raw.row) (out : DataFrame) :
  process_dataframe to_datetime df = Ok out ->
  Zsum (map Agg.count (records out)) =
  Z.of_nat (length (filter (fun r => matches_filter r && has_key_cells r) df)).
Proof.
  intros Eo. destruct (process_dataframe_records df out Eo) as (_ & Er).
  destruct (process_dataframe_transformable df out Eo) as (Hd & _).
  replace (map Agg.count (records out))
    with (map snd (map (fun g => (Agg.key g, Agg.count g)) (records out)))
    by (rewrite map_map; reflexivity).
  rewrite Er, (groupby_size_total (fun k => k)). f_equal.
  unfold counted_keys. rewrite length_observed_keys, filter_filter.
  f_equal. apply filter_ext_in. intros r Hr. f_equal. now apply raw_key_cells.
Qed.

End TransformerFacts.

(** C3, as stated, fails: of two non-conforming samples of March 2020, the
    one whose commune cell is empty passes the filter and is counted in no
    group. The result has the single row of the other sample, with count 1. *)
Lemma process_dataframe_drops_sample_without_commune :
  process_dataframe to_datetime_iso sample_without_commune =
    Ok {| columns := ["year"; "month"; "nomcommuneprinc"; "count"]%string;
          records := [Agg.mk 2020 3 (lit "AJACCIO") 1] |} /\
  map matches_filter sample_without_commune = [true; true] /\
  map (raw_key to_datetime_iso sample_without_commune) sample_without_commune =
    [None; Some (2020, 3, lit "AJACCIO")] /\
  ~ (forall r, In r sample_without_commune -> matches_filter r = true ->
       exists g, In g [Agg.mk 2020 3 (lit "AJACCIO") 1] /\
                 raw_key to_datetime_iso sample_without_commune r = Some (Agg.key g)).
Proof.
  split; [reflexivity|]. split; [reflexivity|]. split; [reflexivity|].
  intros Hall.
  destruct (Hall (Raw.mk (Some (lit "2020-03-02")) None
                         (Some (lit "Eau d'alimentation non-conforme"))))
    as (g & _ & Hk).
  - now left.
  - reflexivity.
  - discriminate.
Qed.

(** C3, amended. On a frame that the transformer accepts, a row passes the
    filter exactly when its conclusion text contains one of the two phrases
    (case-sensitively, anywhere in the text); a row without conclusion text
    does not pass. The result has one row per (year, month, commune) tuple
    carried by a row that passes, and its count is the number of rows that
    pass and carry the tuple: a row that passes and has both a date and a
    commune is counted in exactly one row of the result, and a row without
    date or without commune has no tuple and is counted in none. *)
Theorem process_dataframe_filter_groups
  (to_datetime : list (option str) -> str -> option Timestamp) (df : list Raw.row) :
  transformable to_datetime df ->
  exists out,
    process_dataframe to_datetime df = Ok out /\
    (forall r,
       matches_filter r = true <->
       exists text, Raw.conclusionprel r = Some text /\
         (occurs_in (lit "Eau d'alimentation non-conforme") text \/
          occurs_in (lit "Eau d'alimentation non conforme") text)) /\
    (forall r, Raw.conclusionprel r = None -> matches_filter r = false) /\
    NoDup (map Agg.key (records out)) /\
    (forall g, In g (records out) ->
       matching_rows to_datetime df (Agg.key g) <> [] /\
       Agg.count g = Z.of_nat (length (matching_rows to_datetime df (Agg.key g)))) /\
    (forall r k, In r df -> matches_filter r = true -> raw_key to_datetime df r = Some k ->
       exists g,
         In g (records out) /\ Agg.key g = k /\ In r (matching_rows to_datetime df k) /\
         (forall g', In g' (records out) -> Agg.key g' = k -> g' = g)) /\
    (forall r, In r df ->
       raw_key to_datetime df r = None <-> has_key_cells r = false).
Proof.
  intros Ht. pose proof (process_dataframe_ok to_datetime df Ht) as Eo.
  eexists. split; [exact Eo|].
  set (out := {| columns := _; records := _ |}) in *.
  assert (Hnd : NoDup (map Agg.key (records out))).
  { now apply (process_dataframe_NoDup to_datetime df). }
  split; [exact matches_filter_spec|].
  split; [intros r E; unfold matches_filter; now rewrite E|].
  split; [exact Hnd|]. split; [|split].
  - intros g Hg.
    destruct (process_dataframe_count to_datetime df out g Eo Hg) as (Hk & Ec).
    split; [|exact Ec].
    apply in_observed_keys in Hk as (r & Hr & Ek). apply filter_In in Hr as (Hr & Hm).
    intros Hnil.
    assert (Hin : In r (matching_rows to_datetime df (Agg.key g))).
    { apply filter_In. split; [exact Hr|]. now rewrite Hm, Ek, key_eqb_refl. }
    rewrite Hnil in Hin. destruct Hin.
  - intros r k Hr Hm Ek.
    assert (Hk : In k (map Agg.key (records out))).
    { rewrite (process_dataframe_keys to_datetime df out Eo).
      apply in_group_keys, in_observed_keys. exists r. split; [|exact Ek].
      apply filter_In. now split. }
    apply in_map_iff in Hk as (g & Eg & Hg).
    exists g. split; [exact Hg|]. split; [exact Eg|]. split.
    + apply filter_In. split; [exact Hr|]. now rewrite Hm, Ek, key_eqb_refl.
    + intros g' Hg' Eg'. apply (NoDup_map_inj Agg.key (records out)); congruence.
  - intros r Hr. destruct Ht as (Hd & _).
    rewrite <- (raw_key_cells to_datetime df r Hd Hr).
    destruct (raw_key to_datetime df r); simpl; split; congruence.
Qed.

Lemma process_dataframe_filter_groups_witness :
  exists out,
    process_dataframe to_datetime_iso
      [sample "2021-07-14" "Bastia" "Eau d'alimentation non conforme.";
       Raw.mk (Some (lit "2021-07-20")) (Some (lit "Bastia")) None;
       Raw.mk None (Some (lit "Bastia")) (Some (lit "Eau d'alimentation non-conforme"))]
      = Ok out /\
    NoDup (map Agg.key (records out)) /\
    forall g, In g (records out) ->
      Agg.count g =
        Z.of_nat (length (matching_rows to_datetime_iso
          [sample "2021-07-14" "Bastia" "Eau d'alimentation non conforme.";
           Raw.mk (Some (lit "2021-07-20")) (Some (lit "Bastia")) None;
           Raw.mk None (Some (lit "Bastia")) (Some (lit "Eau d'alimentation non-conforme"))]
          (Agg.key g))).
Proof.
  destruct (process_dataframe_filter_groups to_datetime_iso
              [sample "2021-07-14" "Bastia" "Eau d'alimentation non conforme.";
               Raw.mk (Some (lit "2021-07-20")) (Some (lit "Bastia")) None;
               Raw.mk None (Some (lit "Bastia"))
                      (Some (lit "Eau d'alimentation non-conforme"))])
    as (out & Eo & _ & _ & Hnd & Hcount & _).
  - split; [|split; reflexivity].
    intros r cell [<-|[<-|[<-|[]]]] [= <-]; vm_compute; discriminate.
  - exists out. split; [exact Eo|]. split; [exact Hnd|].
    intros g Hg. exact (proj2 (Hcount g Hg)).
Defined.

(** C4, as stated, fails: of two non-conforming samples of Ajaccio, the one
    whose date cell is empty is in no group, and the counts add up to 1
    where two rows match the filter. *)
Lemma process_dataframe_count_below_matches :
  process_dataframe to_datetime_iso sample_without_date =
    Ok {| columns := ["year"; "month"; "nomcommuneprinc"; "count"]%string;
          records := [Agg.mk 2020 3 (lit "AJACCIO") 1] |} /\
  Zsum (map Agg.count [Agg.mk 2020 3 (lit "AJACCIO") 1]) = 1 /\
  Z.of_nat (length (filter matches_filter sample_without_date)) = 2 /\
  ~ (forall out, process_dataframe to_datetime_iso sample_without_date = Ok out ->
       Zsum (map Agg.count (records out)) =
       Z.of_nat (length (filter matches_filter sample_without_date))).
Proof.
  split; [reflexivity|]. split; [reflexivity|]. split; [reflexivity|].
  intros Hall. specialize (Hall _ eq_refl). vm_compute in Hall. discriminate.
Qed.

(** C4, amended. On a frame that the transformer accepts, the counts of the
    rows of the result add up to the number of raw rows that match the
    filter and have both a date and a commune; when no row lacks either,
    that is the number of rows that match the filter. On the Ajaccio rows of
    March 2020 (two with the hyphenated phrase, one with the unhyphenated
    phrase, one conforming) the result is the single row (2020, 3, AJACCIO)
    with count 3. *)
Theorem process_dataframe_count_preserving :
  (forall (to_datetime : list (option str) -> str -> option Timestamp) (df : list Raw.row),
     transformable to_datetime df ->
     exists out,
       process_dataframe to_datetime df = Ok out /\
       Zsum (map Agg.count (records out)) =
         Z.of_nat (length (filter (fun r => matches_filter r && has_key_cells r) df)) /\
       (forallb has_key_cells df = true ->
        Zsum (map Agg.count (records out)) =
          Z.of_nat (length (filter matches_filter df)))) /\
  process_dataframe to_datetime_iso ajaccio_march_2020 =
    Ok {| columns := ["year"; "month"; "nomcommuneprinc"; "count"]%string;
          records := [Agg.mk 2020 3 (lit "AJACCIO") 3] |}.
Proof.
  split; [|reflexivity].
  intros to_datetime df Ht.
  pose proof (process_dataframe_ok to_datetime df Ht) as Eo.
  eexists. split; [exact Eo|].
  pose proof (process_dataframe_total to_datetime df _ Eo) as Etot.
  split; [exact Etot|].
  intros Hall. rewrite Etot. do 2 f_equal. apply filter_ext_in.
  intros r Hr. rewrite forallb_forall in Hall. rewrite (Hall r Hr). apply andb_true_r.
Qed.

Lemma process_dataframe_count_preserving_witness :
  exists out,
    process_dataframe to_datetime_iso ajaccio_march_2020 = Ok out /\
    Zsum (map Agg.count (records out)) =
      Z.of_nat (length (filter matches_filter ajaccio_march_2020)).
Proof.
  destruct (proj1 process_dataframe_count_preserving to_datetime_iso ajaccio_march_2020)
    as (out & Eo & _ & Hall).
  - split; [|split; reflexivity].
    intros r cell [<-|[<-|[<-|[<-|[]]]]] [= <-]; vm_compute; discriminate.
  - exists out. split; [exact Eo|]. now apply Hall.
Defined.

(** ** The loader *)

Section LoaderFacts.

Variable to_datetime : list (option str) -> str -> option Timestamp.
Variable glob : Z -> list string.
Variable read_csv : string -> result (list Raw.row).

Lemma load_files_app (a b : list string) (df0 : DataFrame) :
  load_files to_datetime read_csv (a ++ b) df0 =
  (df1 <- load_files to_datetime read_csv a df0 ;; load_files to_datetime read_csv b df1).
Proof.
  revert df0. induction a as [|p a IH]; intros df0; simpl; [reflexivity|].
  destruct (read_csv p) as [raw|e]; simpl; [|reflexivity].
  destruct (process_dataframe to_datetime raw) as [out|e]; simpl; [|reflexivity].
  apply IH.
Qed.

Lemma load_years_files (year_range : list Z) (df0 : DataFrame) :
  load_years to_datetime glob read_csv year_range df0 =
  load_files to_datetime read_csv (input_files glob year_range) df0.
Proof.
  revert df0. induction year_range as [|y ys IH]; intros df0; simpl; [reflexivity|].
  rewrite load_files_app.
  destruct (load_files to_datetime read_csv (glob y) df0); simpl; [apply IH | reflexivity].
Qed.

Lemma load_files_ok (paths : list string) (outs : list DataFrame) (df0 : DataFrame) :
  Forall2 (fun p out => per_file to_datetime read_csv p = Ok out) paths outs ->
  load_files to_datetime read_csv paths df0 = Ok (concat_all df0 outs).
Proof.
  intros Hf. revert df0. induction Hf as [|p out paths outs Hp _ IH]; intros df0; simpl.
  - reflexivity.
  - unfold per_file in Hp. destruct (read_csv p) as [raw|e]; simpl in *; [|discriminate].
    rewrite Hp. simpl. apply IH.
Qed.

Lemma records_concat_all (outs : list DataFrame) (df0 : DataFrame) :
  records (concat_all df0 outs) = records df0 ++ flat_map records outs.
Proof.
  revert df0. induction outs as [|out outs IH]; intros df0; simpl.
  - now rewrite app_nil_r.
  - unfold concat_all in *. simpl. rewrite IH. simpl. now rewrite app_assoc.
Qed.

End LoaderFacts.

Lemma rows_with_key_NoDup (k : Z * Z * str) (rows : list Agg.row) :
  NoDup (map Agg.key rows) ->
  length (rows_with_key k rows) =
  if existsb (fun g => key_eqb (Agg.key g) k) rows then 1%nat else 0%nat.
Proof.
  induction rows as [|g rows IH]; simpl; [reflexivity|].
  intros Hnd. inversion Hnd as [|? ? Hg Hrows]; subst.
  destruct (key_eqb (Agg.key g) k) eqn:Ek; simpl.
  - apply key_eqb_eq in Ek. subst k. rewrite (IH Hrows).
    destruct (existsb _ rows) eqn:Ex; [|reflexivity].
    apply existsb_exists in Ex as (g' & Hg' & Eg'). apply key_eqb_eq in Eg'.
    destruct Hg. rewrite <- Eg'. now apply in_map.
  - now apply IH.
Qed.

Lemma rows_with_key_app (k : Z * Z * str) (a b : list Agg.row) :
  rows_with_key k (a ++ b) = rows_with_key k a ++ rows_with_key k b.
Proof. apply filter_app. Qed.

Lemma rows_with_key_blocks (k : Z * Z * str) (outs : list DataFrame) :
  Forall (fun out => NoDup (map Agg.key (records out))) outs ->
  length (rows_with_key k (flat_map records outs)) = length (filter (has_key k) outs).
Proof.
  induction 1 as [|out outs Hout _ IH]; simpl; [reflexivity|].
  rewrite rows_with_key_app, length_app, IH, (rows_with_key_NoDup k _ Hout).
  unfold has_key at 2. destruct (existsb _ (records out)); reflexivity.
Qed.

(** C2, as stated, fails: with two files for 2016 that both hold a
    non-conforming Ajaccio sample of March 2016, the combined table has two
    rows for (2016, 3, AJACCIO). *)
Lemma load_and_process_data_repeats_key :
  load_and_process_data to_datetime_iso two_files_glob two_files_read (range 2016 2024) =
    Ok {| columns := ["year"; "month"; "nomcommuneprinc"; "count"]%string;
          records := [Agg.mk 2016 3 (lit "AJACCIO") 1; Agg.mk 2016 3 (lit "AJACCIO") 1] |} /\
  ~ NoDup (map Agg.key
             [Agg.mk 2016 3 (lit "AJACCIO") 1; Agg.mk 2016 3 (lit "AJACCIO") 1]).
Proof.
  split; [reflexivity|].
  intros Hnd. inversion Hnd as [|? ? Hin _]; subst. apply Hin. now left.
Qed.

(** C2, amended. The combined table is the concatenation, in the order the
    files are read, of the tables obtained by transforming each file on its
    own; each of these has at most one row per (year, month, commune), so the
    combined table has, for every such tuple, one row per input file that
    holds a matching sample for it, and never more rows than files. *)
Theorem load_and_process_data_per_file_blocks
  (to_datetime : list (option str) -> str -> option Timestamp) (glob : Z -> list string)
  (read_csv : string -> result (list Raw.row))
  (year_range : list Z) (outs : list DataFrame) :
  Forall2 (fun p out => per_file to_datetime read_csv p = Ok out)
          (input_files glob year_range) outs ->
  exists table,
    load_and_process_data to_datetime glob read_csv year_range = Ok table /\
    records table = flat_map records outs /\
    Forall (fun out => NoDup (map Agg.key (records out))) outs /\
    (forall k, length (rows_with_key k (records table)) = length (filter (has_key k) outs)) /\
    (forall k, (length (rows_with_key k (records table)) <=
                length (input_files glob year_range))%nat).
Proof.
  intros Hf. exists (concat_all pd_DataFrame outs).
  assert (Hnd : Forall (fun out => NoDup (map Agg.key (records out))) outs).
  { clear -Hf. induction Hf as [|p out paths outs Hp _ IH]; constructor; auto.
    unfold per_file in Hp. destruct (read_csv p) as [raw|e]; simpl in Hp; [|discriminate].
    now apply (process_dataframe_NoDup to_datetime raw). }
  assert (Hrec : records (concat_all pd_DataFrame outs) = flat_map records outs).
  { now rewrite records_concat_all. }
  assert (Hcount : forall k, length (rows_with_key k (records (concat_all pd_DataFrame outs)))
                             = length (filter (has_key k) outs)).
  { intros k. rewrite Hrec. now apply rows_with_key_blocks. }
  repeat split; auto.
  - unfold load_and_process_data. rewrite load_years_files. now apply load_files_ok.
  - intros k. rewrite Hcount, (Forall2_length Hf).
    apply filter_length_le.
Qed.

Lemma load_and_process_data_per_file_blocks_witness :
  exists table,
    load_and_process_data to_datetime_iso two_files_glob two_files_read (range 2016 2024)
      = Ok table /\
    (forall k, (length (rows_with_key k (records table)) <= 2)%nat).
Proof.
  destruct (load_and_process_data_per_file_blocks
              to_datetime_iso two_files_glob two_files_read (range 2016 2024)
              [{| columns := ["year"; "month"; "nomcommuneprinc"; "count"]%string;
                  records := [Agg.mk 2016 3 (lit "AJACCIO") 1] |};
               {| columns := ["year"; "month"; "nomcommuneprinc"; "count"]%string;
                  records := [Agg.mk 2016 3 (lit "AJACCIO") 1] |}])
    as (table & Et & _ & _ & _ & Hle).
  - repeat constructor.
  - exists table. split; [exact Et | exact Hle].
Defined.

(** ** The heatmap grid *)

Lemma has_dup_NoDup {K : Type} `{CompareLaws K} (l : list K) :
  NoDup l -> has_dup l = false.
Proof.
  induction 1 as [|k l Hk _ IH]; simpl; [reflexivity|].
  rewrite IH, orb_false_r.
  destruct (existsb (key_eqb k) l) eqn:E; [|reflexivity].
  apply existsb_exists in E as (k' & Hin & Ek). apply key_eqb_eq in Ek. now subst k'.
Qed.

Lemma NoDup_map_injective {A B : Type} (f : A -> B) (l : list A) :
  (forall a b, f a = f b -> a = b) -> NoDup l -> NoDup (map f l).
Proof.
  intros Hinj. induction 1 as [|a l Ha _ IH]; simpl; constructor; auto.
  intros Hin. apply in_map_iff in Hin as (b & E & Hb). apply Hinj in E. now subst b.
Qed.

Lemma key_eqb_pair (a b y m : Z) : key_eqb (a, b) (y, m) = (a =? y) && (b =? m).
Proof.
  unfold key_eqb, cmp, prod_Compare, prod_cmp, cmp, Z_Compare. simpl.
  rewrite !Z.eqb_compare. destruct (a ?= y); reflexivity.
Qed.

Lemma lookup_label_map {A : Type} (f : Z -> A) (labels : list Z) (l : Z) :
  lookup_label labels (map f labels) l =
  if existsb (Z.eqb l) labels then Some (f l) else None.
Proof.
  induction labels as [|l' labels IH]; simpl; [reflexivity|].
  rewrite (Z.eqb_sym l l'). destruct (l' =? l) eqn:E; simpl; [|exact IH].
  apply Z.eqb_eq in E. now subst l'.
Qed.

Lemma existsb_eqb_In (l : Z) (labels : list Z) :
  existsb (Z.eqb l) labels = true <-> In l labels.
Proof.
  rewrite existsb_exists. split.
  - intros (x & Hx & E). apply Z.eqb_eq in E. now subst x.
  - intros Hin. exists l. split; [exact Hin | apply Z.eqb_refl].
Qed.

(** The cell that [pivot] finds for a table with one row per key. *)
Lemma pivot_cell_keyed (f : Z * Z -> Z) (ks : list (Z * Z)) (m y : Z) :
  pivot_cell (map (fun k => (k, f k)) ks) m y =
  if existsb (key_eqb (y, m)) ks then Some (f (y, m)) else None.
Proof.
  unfold pivot_cell. induction ks as [|[a b] ks IH]; simpl; [reflexivity|].
  rewrite key_eqb_pair, (Z.eqb_sym y a), (Z.eqb_sym m b), (andb_comm (a =? y)).
  destruct ((b =? m) && (a =? y)) eqn:E; simpl.
  - apply andb_true_iff in E as (Eb & Ea).
    apply Z.eqb_eq in Eb, Ea. now subst.
  - exact IH.
Qed.

Lemma group_year_month (m y : Z) (rows : list Agg.row) :
  group year_month (y, m) rows = month_year_rows m y rows.
Proof.
  unfold group, month_year_rows. apply filter_ext. intros r.
  unfold year_month. apply key_eqb_pair.
Qed.

Lemma existsb_year_month (m y : Z) (rows : list Agg.row) :
  existsb (key_eqb (y, m)) (group_keys (map year_month rows)) = true <->
  month_year_rows m y rows <> [].
Proof.
  rewrite existsb_exists. split.
  - intros (k & Hk & E). apply key_eqb_eq in E. subst k.
    apply in_group_keys, in_map_iff in Hk as (r & Er & Hr).
    intros Hnil.
    assert (Hin : In r (month_year_rows m y rows)).
    { apply filter_In. split; [exact Hr|]. unfold year_month in Er.
      injection Er as -> ->. now rewrite !Z.eqb_refl. }
    rewrite Hnil in Hin. destruct Hin.
  - intros Hne. destruct (month_year_rows m y rows) as [|r rs] eqn:E; [congruence|].
    assert (Hin : In r (month_year_rows m y rows)) by (rewrite E; now left).
    apply filter_In in Hin as (Hr & Hb). apply andb_true_iff in Hb as (Ey & Em).
    apply Z.eqb_eq in Ey, Em.
    exists (y, m). split; [|apply key_eqb_refl].
    apply in_group_keys, in_map_iff. exists r. split; [|exact Hr].
    unfold year_month. congruence.
Qed.

Section SortedLists.

Context {K : Type} `{CompareLaws K}.

Lemma key_lt_irrefl (a : K) : ~ key_lt a a.
Proof. unfold key_lt. rewrite cmp_refl. discriminate. Qed.

(** Two strictly increasing lists with the same elements are the same list. *)
Lemma sorted_ext (l1 l2 : list K) :
  StronglySorted key_lt l1 -> StronglySorted key_lt l2 ->
  (forall x, In x l1 <-> In x l2) -> l1 = l2.
Proof.
  intros H1. revert l2. induction H1 as [|h1 t1 Hs1 IH Hh1]; intros l2 H2 Hext.
  - destruct l2 as [|h2 t2]; [reflexivity|]. destruct (proj2 (Hext h2)). now left.
  - destruct H2 as [|h2 t2 Hs2 Hh2].
    + destruct (proj1 (Hext h1)). now left.
    + rewrite Forall_forall in Hh1, Hh2.
      assert (Eh : h1 = h2).
      { destruct (proj1 (Hext h1) (or_introl eq_refl)) as [E|Hin1]; [now symmetry|].
        destruct (proj2 (Hext h2) (or_introl eq_refl)) as [E|Hin2]; [exact E|].
        exfalso. apply (key_lt_irrefl h1).
        exact (cmp_trans _ _ _ (Hh1 _ Hin2) (Hh2 _ Hin1)). }
      subst h2. f_equal. apply IH; [exact Hs2|].
      intros x. split; intros Hx.
      * destruct (proj1 (Hext x) (or_intror Hx)) as [E|Hin]; [|exact Hin].
        subst x. destruct (key_lt_irrefl h1). now apply Hh1.
      * destruct (proj2 (Hext x) (or_intror Hx)) as [E|Hin]; [|exact Hin].
        subst x. destruct (key_lt_irrefl h1). now apply Hh2.
Qed.

Lemma group_keys_ext (l1 l2 : list K) :
  (forall x, In x l1 <-> In x l2) -> group_keys l1 = group_keys l2.
Proof.
  intros Hext. apply sorted_ext; try apply group_keys_sorted.
  intros x. now rewrite !in_group_keys.
Qed.

End SortedLists.

Lemma heatmap_df_ok (df : DataFrame) :
  count_table df ->
  heatmap_df df = Ok (groupby_sum year_month Agg.count (records df)).
Proof.
  unfold count_table, heatmap_df, require_columns, has_column. intros ->. reflexivity.
Qed.

Lemma heatmap_rows_months (rows : list Agg.row) :
  group_keys (map (fun r : Z * Z * Z => snd (fst r)) (groupby_sum year_month Agg.count rows))
  = group_keys (map Agg.month rows).
Proof.
  apply group_keys_ext. intros m. rewrite !in_map_iff. split.
  - intros ([[y m'] v] & <- & Hin). simpl.
    apply in_groupby_sum in Hin as (Hk & _). apply in_map_iff in Hk as (r & [= _ <-] & Hr).
    now exists r.
  - intros (r & <- & Hr).
    exists (year_month r, Zsum (map Agg.count (group year_month (year_month r) rows))).
    split; [reflexivity|]. apply in_groupby_sum. split; [now apply in_map | reflexivity].
Qed.

Lemma heatmap_rows_years (rows : list Agg.row) :
  group_keys (map (fun r : Z * Z * Z => fst (fst r)) (groupby_sum year_month Agg.count rows))
  = group_keys (map Agg.year rows).
Proof.
  apply group_keys_ext. intros y. rewrite !in_map_iff. split.
  - intros ([[y' m] v] & <- & Hin). simpl.
    apply in_groupby_sum in Hin as (Hk & _). apply in_map_iff in Hk as (r & [= <- _] & Hr).
    now exists r.
  - intros (r & <- & Hr).
    exists (year_month r, Zsum (map Agg.count (group year_month (year_month r) rows))).
    split; [reflexivity|]. apply in_groupby_sum. split; [now apply in_map | reflexivity].
Qed.

Lemma heatmap_rows_no_dup (rows : list Agg.row) :
  has_dup (map (fun r : Z * Z * Z => (snd (fst r), fst (fst r)))
               (groupby_sum year_month Agg.count rows)) = false.
Proof.
  apply has_dup_NoDup.
  replace (map _ (groupby_sum year_month Agg.count rows))
    with (map (fun k : Z * Z => (snd k, fst k)) (map fst (groupby_sum year_month Agg.count rows)))
    by (rewrite map_map; reflexivity).
  apply NoDup_map_injective.
  - intros [a b] [c d]. simpl. congruence.
  - rewrite groupby_sum_keys. apply group_keys_NoDup.
Qed.

(** C8. In the pivoted grid the cell of month [m] and year [y] holds the sum
    of the counts of all communes for that pair; a pair without data has no
    number at all: its cell is blank when the month and the year both label
    the grid, and absent otherwise. It never holds zero. *)
Theorem heatmap_pivot_cells (df : DataFrame) :
  count_table df ->
  exists p,
    heatmap_pivot df = Ok p /\
    pv_index p = group_keys (map Agg.month (records df)) /\
    pv_columns p = group_keys (map Agg.year (records df)) /\
    forall m y,
      (month_year_rows m y (records df) <> [] ->
       pivot_loc p m y = Some (Some (month_year_total m y (records df)))) /\
      (month_year_rows m y (records df) = [] ->
       pivot_loc p m y =
         if existsb (Z.eqb m) (pv_index p) && existsb (Z.eqb y) (pv_columns p)
         then Some None else None).
Proof.
  intros Hc. unfold heatmap_pivot. rewrite (heatmap_df_ok df Hc). simpl.
  unfold pivot. rewrite heatmap_rows_no_dup, heatmap_rows_months, heatmap_rows_years.
  eexists. split; [reflexivity|]. simpl. split; [reflexivity|]. split; [reflexivity|].
  intros m y. unfold pivot_loc. simpl.
  set (idx := group_keys (map Agg.month (records df))).
  set (cols := group_keys (map Agg.year (records df))).
  rewrite (lookup_label_map (fun m => map (fun y => pivot_cell _ m y) cols) idx m).
  assert (Ecell : pivot_cell (groupby_sum year_month Agg.count (records df)) m y =
                  if existsb (key_eqb (y, m)) (group_keys (map year_month (records df)))
                  then Some (month_year_total m y (records df)) else None).
  { unfold groupby_sum. rewrite pivot_cell_keyed, group_year_month. reflexivity. }
  split.
  - intros Hne.
    assert (Hm : existsb (Z.eqb m) idx = true).
    { apply existsb_eqb_In, in_group_keys, in_map_iff.
      destruct (month_year_rows m y (records df)) as [|r rs] eqn:E; [congruence|].
      assert (Hin : In r (month_year_rows m y (records df))) by (rewrite E; now left).
      apply filter_In in Hin as (Hr & Hb). apply andb_true_iff in Hb as (_ & Em).
      apply Z.eqb_eq in Em. now exists r. }
    assert (Hy : existsb (Z.eqb y) cols = true).
    { apply existsb_eqb_In, in_group_keys, in_map_iff.
      destruct (month_year_rows m y (records df)) as [|r rs] eqn:E; [congruence|].
      assert (Hin : In r (month_year_rows m y (records df))) by (rewrite E; now left).
      apply filter_In in Hin as (Hr & Hb). apply andb_true_iff in Hb as (Ey & _).
      apply Z.eqb_eq in Ey. now exists r. }
    rewrite Hm, (lookup_label_map _ cols y), Hy, Ecell.
    apply existsb_year_month in Hne. now rewrite Hne.
  - intros Hnil.
    destruct (existsb (Z.eqb m) idx); simpl; [|reflexivity].
    rewrite (lookup_label_map _ cols y), Ecell.
    destruct (existsb (Z.eqb y) cols); [|reflexivity].
    destruct (existsb (key_eqb (y, m)) _) eqn:E; [|reflexivity].
    apply existsb_year_month in E. contradiction.
Qed.

Lemma heatmap_pivot_cells_witness :
  exists p,
    heatmap_pivot
      {| columns := ["year"; "month"; "nomcommuneprinc"; "count"]%string;
         records := [Agg.mk 2019 7 (lit "BASTIA") 2; Agg.mk 2019 7 (lit "CORTE") 5;
                     Agg.mk 2020 1 (lit "CORTE") 1] |} = Ok p /\
    pivot_loc p 7 2019 = Some (Some 7) /\
    pivot_loc p 7 2020 = Some None /\
    pivot_loc p 2 2020 = None.
Proof.
  destruct (heatmap_pivot_cells
              {| columns := ["year"; "month"; "nomcommuneprinc"; "count"]%string;
                 records := [Agg.mk 2019 7 (lit "BASTIA") 2; Agg.mk 2019 7 (lit "CORTE") 5;
                             Agg.mk 2020 1 (lit "CORTE") 1] |})
    as (p & Ep & Ei & Ec & Hcells).
  - reflexivity.
  - exists p. split; [exact Ep|].
    split; [|split].
    + apply (proj1 (Hcells 7 2019)). discriminate.
    + rewrite (proj2 (Hcells 7 2020)), Ei, Ec; reflexivity.
    + rewrite (proj2 (Hcells 2 2020)), Ei, Ec; reflexivity.
Defined.

(** When every month of the year occurs in the table, the rows of the grid
    are the months 1 to 12 in calendar order. *)
Lemma heatmap_index_all_months (rows : list Agg.row) :
  (forall m, In m (range 1 13) <-> In m (map Agg.month rows)) ->
  group_keys (map Agg.month rows) = range 1 13.
Proof.
  intros Hall. apply sorted_ext.
  - apply group_keys_sorted.
  - repeat (constructor; [|repeat constructor]). constructor.
  - intros m. rewrite in_group_keys. symmetry. apply Hall.
Qed.

(** C9 on data of a single month. For a table whose only row is of March
    2020 the grid has the single row of month 3, not the twelve months, and
    the label that the tick list puts at that row's position is the one of
    January. A run whose input files hold samples of March 2016 only writes
    such a heatmap. *)
Theorem create_heatmap_single_month :
  create_heatmap
    {| columns := ["year"; "month"; "nomcommuneprinc"; "count"]%string;
       records := [Agg.mk 2020 3 (lit "AJACCIO") 3] |} [] =
    (Ok tt,
     [heatmap_png
        {| heatmap_data := {| pv_index := [3]; pv_columns := [2020];
                              pv_values := [[Some 3]] |};
           yticks := combine (range 0 12) month_labels |}]) /\
  [3] <> range 1 13 /\
  lookup_label (range 0 12) month_labels 0 = Some (lit "Jan") /\
  exists bar html,
    main to_datetime_iso two_files_glob two_files_read accented_read_file
         sort_desc_stable [] =
      (Ok tt,
       [heatmap_png
          {| heatmap_data := {| pv_index := [3]; pv_columns := [2016];
                                pv_values := [[Some 2]] |};
             yticks := combine (range 0 12) month_labels |};
        barplot_png bar; index_html html]).
Proof.
  split; [reflexivity|]. split; [discriminate|]. split; [reflexivity|].
  eexists. eexists. vm_compute. reflexivity.
Qed.

(** ** A run without input files *)

(** C10. When the glob matches no file for any year of 2016-2023, the loader
    returns the frame it started from, without rows and without columns; the
    heatmap stage then raises [KeyError] on the absent [year] column, and the
    run aborts having written no file. *)
Theorem main_without_input_files
  (to_datetime : list (option str) -> str -> option Timestamp) (glob : Z -> list string)
  (read_csv : string -> result (list Raw.row))
  (read_file : string -> result (list Feature))
  (sort_values : list (str * Z) -> list (str * Z)) :
  (forall year, In year (range 2016 2024) -> glob year = []) ->
  load_and_process_data to_datetime glob read_csv (range 2016 2024) = Ok pd_DataFrame /\
  columns pd_DataFrame = [] /\
  records pd_DataFrame = [] /\
  heatmap_pivot pd_DataFrame = Raise (KeyError "year") /\
  create_heatmap pd_DataFrame [] = (Raise (KeyError "year"), []) /\
  main to_datetime glob read_csv read_file sort_values [] = (Raise (KeyError "year"), []).
Proof.
  intros Hglob.
  assert (El : load_and_process_data to_datetime glob read_csv (range 2016 2024)
               = Ok pd_DataFrame).
  { unfold load_and_process_data. rewrite load_years_files.
    assert (Ef : input_files glob (range 2016 2024) = []).
    { unfold input_files. induction (range 2016 2024) as [|y ys IH]; [reflexivity|].
      simpl. rewrite (Hglob y) by now left. simpl. apply IH.
      intros y' Hy'. apply Hglob. now right. }
    now rewrite Ef. }
  repeat split; auto.
  unfold main, io_bind, io_lift. now rewrite El.
Qed.

Lemma main_without_input_files_witness :
  main to_datetime_iso (fun _ => []) two_files_read
       (fun path => Raise (FileNotFoundError path)) sort_desc_stable [] =
    (Raise (KeyError "year"), []).
Proof.
  apply (main_without_input_files to_datetime_iso (fun _ => []) two_files_read
           (fun path => Raise (FileNotFoundError path)) sort_desc_stable).
  reflexivity.
Defined.

(** ** The ranked per-commune table *)

Lemma insert_before_ties_perm (x : str * Z) (l : list (str * Z)) :
  Permutation (insert_before_ties x l) (x :: l).
Proof.
  induction l as [|h t IH]; simpl; [reflexivity|].
  destruct (snd h <=? snd x); [reflexivity|].
  rewrite IH. apply perm_swap.
Qed.

Lemma insert_before_ties_sorted (x : str * Z) (l : list (str * Z)) :
  StronglySorted non_increasing l -> StronglySorted non_increasing (insert_before_ties x l).
Proof.
  induction 1 as [|h t Hs IH Hh]; simpl; [repeat constructor|].
  destruct (snd h <=? snd x) eqn:E.
  - apply Z.leb_le in E. constructor; [now constructor|].
    constructor; [exact E|].
    eapply Forall_impl; [|exact Hh]. unfold non_increasing. intros; lia.
  - apply Z.leb_gt in E. constructor; [exact IH|].
    rewrite (insert_before_ties_perm x t).
    constructor; [unfold non_increasing; lia | exact Hh].
Qed.

Lemma sort_desc_stable_contract : sort_contract sort_desc_stable.
Proof.
  split; intros l; induction l as [|x l IH]; simpl; try constructor.
  - now rewrite insert_before_ties_perm, IH.
  - now apply insert_before_ties_sorted.
Qed.

Lemma commune_counts_ok (sort_values : list (str * Z) -> list (str * Z)) (df : DataFrame) :
  count_table df ->
  commune_counts sort_values df =
    Ok (sort_values (groupby_sum Agg.nomcommuneprinc Agg.count (records df))).
Proof.
  unfold count_table, commune_counts, require_columns, has_column. intros ->. reflexivity.
Qed.

Lemma str_eqb_eq (a b : str) : str_eqb a b = true <-> a = b.
Proof.
  unfold str_eqb. destruct (list_eq_dec N.eq_dec a b); split; congruence.
Qed.

Lemma key_eqb_str (a b : str) : key_eqb a b = str_eqb a b.
Proof.
  destruct (str_eqb a b) eqn:E.
  - apply str_eqb_eq in E. subst b. apply key_eqb_refl.
  - apply key_eqb_neq. intros ->.
    assert (str_eqb b b = true) by now apply str_eqb_eq. congruence.
Qed.

Lemma group_commune (c : str) (rows : list Agg.row) :
  group Agg.nomcommuneprinc c rows = filter (fun r => str_eqb (Agg.nomcommuneprinc r) c) rows.
Proof. unfold group. apply filter_ext. intros r. apply key_eqb_str. Qed.

(** *** [sort_values] over a kernel that sorts *)

Lemma take_seq {A : Type} (d : A) (l : list A) : take d (seq 0 (length l)) l = l.
Proof.
  unfold take. induction l as [|x l IH]; [reflexivity|].
  cbn [length seq map nth]. rewrite <- seq_shift, map_map. f_equal. exact IH.
Qed.

Lemma take_rev {A : Type} (d : A) (indexer : list nat) (l : list A) :
  take d (rev indexer) l = rev (take d indexer l).
Proof. apply map_rev. Qed.

Lemma nth_rev_seq (n j : nat) : (j < n)%nat -> nth j (rev (seq 0 n)) 0%nat = (n - S j)%nat.
Proof.
  intros Hj. rewrite rev_nth by (rewrite length_seq; exact Hj).
  rewrite length_seq, seq_nth by lia. reflexivity.
Qed.

(** The reversals of [nargsort] amount to sorting the reversed table and
    reversing the result. *)
Lemma sort_values_count_rev (argsort : list Z -> list nat) (df : list (str * Z)) :
  (forall j, In j (argsort (rev (map snd df))) -> (j < length df)%nat) ->
  sort_values_count argsort df =
  rev (take ([], 0) (argsort (rev (map snd df))) (rev df)).
Proof.
  intros Hin. unfold sort_values_count, nargsort. rewrite take_rev. f_equal.
  unfold take. rewrite map_map, length_map. apply map_ext_in. intros j Hj.
  apply Hin in Hj. rewrite (nth_rev_seq _ _ Hj). symmetry. now apply rev_nth.
Qed.

Lemma rev_sorted_non_increasing (l : list (str * Z)) :
  StronglySorted Z.le (map snd l) -> StronglySorted non_increasing (rev l).
Proof.
  induction l as [|x l IH]; simpl; [constructor|].
  intros Hs. inversion Hs as [|? ? Hl Hx]; subst.
  specialize (IH Hl). clear Hs Hl.
  assert (Hall : Forall (fun y => non_increasing y x) (rev l)).
  { apply Forall_forall. intros y Hy. apply in_rev in Hy.
    rewrite Forall_forall in Hx. unfold non_increasing. apply Hx. now apply in_map. }
  induction IH as [|y t Ht IHt Hy]; simpl.
  - repeat constructor.
  - inversion Hall as [|? ? Hyx Htx]; subst.
    constructor; [now apply IHt|].
    apply Forall_app. split; [exact Hy | now constructor].
Qed.

Lemma sort_values_count_sorts (argsort : list Z -> list nat) (df : list (str * Z)) :
  sorts_ascending argsort (rev (map snd df)) ->
  Permutation (sort_values_count argsort df) df /\
  StronglySorted non_increasing (sort_values_count argsort df).
Proof.
  intros (Hperm & Hsorted). rewrite length_rev, length_map in Hperm.
  rewrite sort_values_count_rev.
  2:{ intros j Hj. apply (Permutation_in _ Hperm), in_seq in Hj. lia. }
  split.
  - rewrite <- Permutation_rev.
    transitivity (take ([], 0) (seq 0 (length (rev df))) (rev df)).
    + apply Permutation_map. now rewrite length_rev.
    + rewrite take_seq. symmetry. apply Permutation_rev.
  - apply rev_sorted_non_increasing.
    unfold take. rewrite map_map.
    erewrite map_ext; [exact Hsorted|].
    intros i. simpl. rewrite <- map_rev.
    exact (eq_sym (map_nth snd (rev df) ([], 0) i)).
Qed.

(** The kernel that keeps equal values in position order sorts. *)
Lemma insert_position_perm (a : list Z) (i : nat) (l : list nat) :
  Permutation (insert_position a i l) (i :: l).
Proof.
  induction l as [|j l IH]; simpl; [reflexivity|].
  destruct (nth i a 0 <=? nth j a 0); [reflexivity|].
  rewrite IH. apply perm_swap.
Qed.

Lemma insert_position_sorted (a : list Z) (i : nat) (l : list nat) :
  StronglySorted Z.le (map (fun k => nth k a 0) l) ->
  StronglySorted Z.le (map (fun k => nth k a 0) (insert_position a i l)).
Proof.
  induction l as [|j l IH]; simpl; [repeat constructor|].
  intros Hs. inversion Hs as [|? ? Hl Hj]; subst.
  destruct (nth i a 0 <=? nth j a 0) eqn:E.
  - apply Z.leb_le in E. simpl. constructor; [exact Hs|].
    constructor; [exact E|]. eapply Forall_impl; [|exact Hj]. intros; lia.
  - apply Z.leb_gt in E. simpl. constructor; [now apply IH|].
    rewrite (Permutation_map _ (insert_position_perm a i l)). simpl.
    constructor; [lia | exact Hj].
Qed.

Lemma argsort_stable_sorts (a : list Z) : sorts_ascending argsort_stable a.
Proof.
  unfold sorts_ascending, argsort_stable. generalize (seq 0 (length a)) as idx.
  induction idx as [|i idx (Hp & Hs)]; simpl.
  - split; constructor.
  - split.
    + now rewrite insert_position_perm, Hp.
    + now apply insert_position_sorted.
Qed.

(** C5, as stated, fails. With numpy's scalar quicksort kernel a table of few
    communes keeps ties in group order (Ajaccio before Bastia, one sample
    each): ranges of at most 17 rows are sorted by insertion. On the table of
    360 communes, whose groups are in alphabetical order, the communes of
    equal total do not come out in group order. *)
Lemma commune_counts_ties_not_stable :
  commune_counts (sort_values_count np_argsort)
    {| columns := ["year"; "month"; "nomcommuneprinc"; "count"]%string;
       records := [Agg.mk 2020 3 (lit "AJACCIO") 1; Agg.mk 2020 3 (lit "BASTIA") 1] |} =
    Ok [(lit "AJACCIO", 1); (lit "BASTIA", 1)] /\
  groupby_sum Agg.nomcommuneprinc Agg.count (records three_sixty_communes) =
    map (fun i => ([N.of_nat (65 + i / 26); N.of_nat (65 + i mod 26)],
                   nth (i mod 3) [1; 3; 2] 0)) (seq 0 360) /\
  exists out,
    commune_counts (sort_values_count np_argsort) three_sixty_communes = Ok out /\
    ~ ties_in_order
        (groupby_sum Agg.nomcommuneprinc Agg.count (records three_sixty_communes)) out.
Proof.
  split; [vm_compute; reflexivity|]. split; [vm_compute; reflexivity|].
  eexists. split; [vm_compute; reflexivity|].
  intros Hstable. specialize (Hstable 3). vm_compute in Hstable. discriminate.
Qed.

(** C5, amended. Over a sorting kernel that returns the positions of its
    argument by non-decreasing value, the per-commune table that the bar
    stage computes, draws and returns is sorted by non-increasing total; it
    holds one row per commune of the aggregated table, with the sum of that
    commune's counts. The order among communes of equal total is the one the
    kernel leaves. *)
Theorem commune_counts_ranked (argsort : list Z -> list nat) (df : DataFrame) :
  (forall a, sorts_ascending argsort a) ->
  count_table df ->
  exists out,
    commune_counts (sort_values_count argsort) df = Ok out /\
    (forall files, exists fig,
       create_barplot (sort_values_count argsort) df files =
         (Ok out, files ++ [barplot_png fig]) /\
       bars fig = out) /\
    StronglySorted non_increasing out /\
    Permutation out (groupby_sum Agg.nomcommuneprinc Agg.count (records df)) /\
    NoDup (map fst out) /\
    (forall c v, In (c, v) out <->
       In c (map Agg.nomcommuneprinc (records df)) /\ v = commune_total c (records df)).
Proof.
  intros Hsorts Hc.
  set (groups := groupby_sum Agg.nomcommuneprinc Agg.count (records df)).
  destruct (sort_values_count_sorts argsort groups (Hsorts _)) as (Hperm & Hsorted).
  exists (sort_values_count argsort groups).
  split; [now apply commune_counts_ok|].
  split.
  { intros files. eexists. unfold create_barplot, io_bind, io_lift, write, io_ret.
    rewrite (commune_counts_ok _ df Hc). split; reflexivity. }
  split; [exact Hsorted|]. split; [exact Hperm|]. split.
  - apply (Permutation_NoDup (l := map fst groups)).
    + apply Permutation_map. symmetry. exact Hperm.
    + unfold groups. rewrite groupby_sum_keys. apply group_keys_NoDup.
  - intros c v. unfold commune_total. rewrite <- group_commune, <- in_groupby_sum.
    split; apply Permutation_in; [exact Hperm | symmetry; exact Hperm].
Qed.

Lemma commune_counts_ranked_witness :
  exists out,
    commune_counts (sort_values_count argsort_stable)
      {| columns := ["year"; "month"; "nomcommuneprinc"; "count"]%string;
         records := [Agg.mk 2019 7 (lit "BASTIA") 2; Agg.mk 2019 7 (lit "CORTE") 5;
                     Agg.mk 2020 1 (lit "CORTE") 1] |} = Ok out /\
    StronglySorted non_increasing out.
Proof.
  destruct (commune_counts_ranked argsort_stable
              {| columns := ["year"; "month"; "nomcommuneprinc"; "count"]%string;
                 records := [Agg.mk 2019 7 (lit "BASTIA") 2; Agg.mk 2019 7 (lit "CORTE") 5;
                             Agg.mk 2020 1 (lit "CORTE") 1] |}
              argsort_stable_sorts eq_refl)
    as (out & Eo & _ & Hs & _).
  exists out. split; [exact Eo | exact Hs].
Defined.

(** ** The join of the boundaries with the counts *)

Lemma choropleth_data_blocks (df : list (str * Z)) (gdf : list Feature) :
  choropleth_data df gdf = flat_map (fun g => map (fill_row 0) (joined_block df g)) gdf.
Proof.
  unfold choropleth_data, fillna_count, merge_left.
  induction gdf as [|g gdf IH]; [reflexivity|].
  cbn [flat_map]. rewrite map_app. f_equal. exact IH.
Qed.

Lemma joined_block_nonempty (df : list (str * Z)) (g : Feature) :
  exists r rs, joined_block df g = r :: rs /\
               Merged.nom r = nom g /\ Merged.geometry r = geometry g.
Proof.
  unfold joined_block. destruct (partners df g) as [|p ps]; simpl; eauto.
Qed.

Lemma in_joined_block (df : list (str * Z)) (g : Feature) (r : Merged.row) :
  In r (joined_block df g) ->
  Merged.nom r = nom g /\ Merged.geometry r = geometry g /\
  (partners df g = [] -> Merged.count r = None /\ Merged.nomcommuneprinc r = None) /\
  (forall v, Merged.count r = Some v -> In (nom g, v) df).
Proof.
  unfold joined_block. destruct (partners df g) as [|p ps] eqn:E.
  - intros [<-|[]]. simpl. repeat split; auto. discriminate.
  - intros Hin. apply in_map_iff in Hin as (q & <- & Hq). simpl.
    repeat split; try discriminate.
    intros v [= <-]. rewrite <- E in Hq. apply filter_In in Hq as (Hq & Eq).
    apply str_eqb_eq in Eq. rewrite Eq. now destruct q.
Qed.

Lemma partners_none (df : list (str * Z)) (g : Feature) :
  (forall r, In r df -> fst r <> nom g) -> partners df g = [].
Proof.
  intros Hno. unfold partners. induction df as [|r df IH]; simpl; [reflexivity|].
  destruct (str_eqb (nom g) (fst r)) eqn:E.
  - apply str_eqb_eq in E. destruct (Hno r); [now left | now symmetry].
  - apply IH. intros r' Hr'. apply Hno. now right.
Qed.

Lemma partners_unique (df : list (str * Z)) (g : Feature) :
  NoDup (map fst df) ->
  partners df g =
  match find (fun r => str_eqb (nom g) (fst r)) df with
  | Some r => [r]
  | None => []
  end.
Proof.
  unfold partners. induction df as [|r df IH]; simpl; [reflexivity|].
  intros Hnd. inversion Hnd as [|? ? Hr Hdf]; subst.
  destruct (str_eqb (nom g) (fst r)) eqn:E; [|now apply IH].
  f_equal. apply str_eqb_eq in E.
  clear IH Hnd Hdf. induction df as [|r' df IH]; simpl; [reflexivity|].
  destruct (str_eqb (nom g) (fst r')) eqn:E'.
  - apply str_eqb_eq in E'. destruct Hr. left. congruence.
  - apply IH. intros Hin. apply Hr. now right.
Qed.

(** C6. The choropleth dataset has an entry for every boundary polygon; a
    polygon whose name matches no commune of the count table is kept, with
    count 0; no entry is left without a count; and against a table with one
    row per commune the dataset has exactly one entry per polygon, in the
    order of the boundary file. *)
Theorem choropleth_data_left_join (df : list (str * Z)) (gdf : list Feature) :
  (forall g, In g gdf ->
     exists r, In r (choropleth_data df gdf) /\
               Merged.nom r = nom g /\ Merged.geometry r = geometry g) /\
  (forall g, In g gdf -> (forall r, In r df -> fst r <> nom g) ->
     In (Merged.mk (nom g) (geometry g) None (Some 0)) (choropleth_data df gdf)) /\
  (forall r, In r (choropleth_data df gdf) ->
     (forall row, In row df -> fst row <> Merged.nom r) ->
     Merged.count r = Some 0) /\
  (forall r, In r (choropleth_data df gdf) -> Merged.count r <> None) /\
  (NoDup (map fst df) ->
     choropleth_data df gdf = map (joined_row df) gdf /\
     length (choropleth_data df gdf) = length gdf).
Proof.
  rewrite choropleth_data_blocks. repeat split.
  - intros g Hg. destruct (joined_block_nonempty df g) as (r & rs & E & En & Eg).
    exists (fill_row 0 r). split; [|split; assumption].
    apply in_flat_map. exists g. split; [exact Hg|]. rewrite E. now left.
  - intros g Hg Hno. apply in_flat_map. exists g. split; [exact Hg|].
    unfold joined_block. rewrite (partners_none df g Hno). now left.
  - intros r Hr Hno. apply in_flat_map in Hr as (g & Hg & Hr).
    apply in_map_iff in Hr as (r0 & <- & Hr0).
    apply in_joined_block in Hr0 as (En & _ & Hnone & _). simpl in *.
    rewrite En in Hno. destruct (Hnone (partners_none df g Hno)) as (-> & _). reflexivity.
  - intros r Hr. apply in_flat_map in Hr as (g & Hg & Hr).
    apply in_map_iff in Hr as (r0 & <- & Hr0). simpl.
    destruct (Merged.count r0); discriminate.
  - induction gdf as [|g gdf IH]; simpl; [reflexivity|].
    rewrite IH. unfold joined_block, joined_row. rewrite (partners_unique df g H).
    destruct (find _ df); reflexivity.
  - induction gdf as [|g gdf IH]; simpl; [reflexivity|].
    rewrite length_app, IH, length_map. unfold joined_block.
    rewrite (partners_unique df g H). destruct (find _ df); reflexivity.
Qed.

Lemma choropleth_data_left_join_witness :
  choropleth_data [(lit "AJACCIO", 4)]
    [{| nom := lit "AJACCIO"; geometry := [] |}; {| nom := lit "ZONZA"; geometry := [] |}] =
  [Merged.mk (lit "AJACCIO") [] (Some (lit "AJACCIO")) (Some 4);
   Merged.mk (lit "ZONZA") [] None (Some 0)].
Proof.
  rewrite (proj1 (proj2 (proj2 (proj2 (proj2
             (choropleth_data_left_join [(lit "AJACCIO", 4)]
                [{| nom := lit "AJACCIO"; geometry := [] |};
                 {| nom := lit "ZONZA"; geometry := [] |}]))))
             ltac:(repeat constructor; simpl; tauto))).
  reflexivity.
Defined.

(** ** The colour-scale cutoff *)

Lemma insert_sorted_perm (x : Z) (l : list Z) : Permutation (insert_sorted x l) (x :: l).
Proof.
  induction l as [|h t IH]; simpl; [reflexivity|].
  destruct (x <=? h); [reflexivity|]. rewrite IH. apply perm_swap.
Qed.

Lemma sort_asc_perm (l : list Z) : Permutation (sort_asc l) l.
Proof.
  induction l as [|x l IH]; simpl; [constructor|].
  now rewrite insert_sorted_perm, IH.
Qed.

Lemma insert_sorted_sorted (x : Z) (l : list Z) :
  StronglySorted Z.le l -> StronglySorted Z.le (insert_sorted x l).
Proof.
  induction 1 as [|h t Hs IH Hh]; simpl; [repeat constructor|].
  destruct (x <=? h) eqn:E.
  - apply Z.leb_le in E. constructor; [now constructor|].
    constructor; [exact E|]. eapply Forall_impl; [|exact Hh]. intros; lia.
  - apply Z.leb_gt in E. constructor; [exact IH|].
    rewrite (insert_sorted_perm x t). constructor; [lia | exact Hh].
Qed.

Lemma sort_asc_sorted (l : list Z) : StronglySorted Z.le (sort_asc l).
Proof.
  induction l as [|x l IH]; simpl; [constructor|]. now apply insert_sorted_sorted.
Qed.

Lemma sorted_nth_le (xs : list Z) (d : Z) (i j : nat) :
  StronglySorted Z.le xs -> (i <= j < length xs)%nat -> nth i xs d <= nth j xs d.
Proof.
  intros Hs. revert i j. induction Hs as [|h t Hs IH Hh]; intros i j Hij.
  - simpl in Hij. lia.
  - destruct i as [|i], j as [|j]; simpl in *; try lia.
    + rewrite Forall_forall in Hh. apply Hh, nth_In. lia.
    + apply IH. lia.
Qed.

(** In a sorted list, at most the entries after position [i] exceed the
    entry at position [i]. *)
Lemma sorted_above_nth (xs : list Z) (d : Z) (i : nat) :
  StronglySorted Z.le xs -> (i < length xs)%nat ->
  (length (filter (fun v => (nth i xs d <? v)%Z) xs) <= length xs - (i + 1))%nat.
Proof.
  intros Hs. revert i. induction Hs as [|h t Hs IH Hh]; intros i Hi.
  - simpl in Hi. lia.
  - destruct i as [|i].
    + cbn [nth filter]. rewrite Z.ltb_irrefl.
      pose proof (filter_length_le (fun v => h <? v) t). simpl. lia.
    + cbn [nth filter].
      assert (Hle : h <= nth i t d).
      { rewrite Forall_forall in Hh. apply Hh, nth_In. simpl in Hi. lia. }
      apply Z.ltb_ge in Hle. rewrite Hle.
      specialize (IH i). simpl in Hi |- *. lia.
Qed.

Lemma filter_length_mono {A : Type} (f g : A -> bool) (l : list A) :
  (forall x, f x = true -> g x = true) ->
  (length (filter f l) <= length (filter g l))%nat.
Proof.
  intros Hfg. induction l as [|x l IH]; simpl; [lia|].
  destruct (f x) eqn:Ef.
  - rewrite (Hfg x Ef). simpl. lia.
  - destruct (g x); simpl; lia.
Qed.

Lemma filter_length_perm {A : Type} (f : A -> bool) (l l' : list A) :
  Permutation l l' -> length (filter f l) = length (filter f l').
Proof.
  induction 1 as [|x l l' _ IH|x y l|l l' l'' _ IH1 _ IH2]; simpl.
  - reflexivity.
  - destruct (f x); simpl; congruence.
  - destruct (f x), (f y); reflexivity.
  - congruence.
Qed.

Lemma exceeds_dropna (cap : Q) (rows : list Merged.row) :
  length (filter (exceeds cap) rows) =
  length (filter (fun v => negb (Qle_bool (inject_Z v) cap)) (dropna (map Merged.count rows))).
Proof.
  induction rows as [|r rows IH]; simpl; [reflexivity|].
  unfold exceeds at 1. destruct (Merged.count r) as [v|]; simpl; [|exact IH].
  destruct (Qle_bool (inject_Z v) cap); simpl; congruence.
Qed.

Lemma dropna_filled (rows : list Merged.row) :
  dropna (map Merged.count (map (fill_row 0) rows)) =
  map (fun r => match Merged.count r with Some v => v | None => 0 end) rows.
Proof.
  induction rows as [|r rows IH]; simpl; [reflexivity|].
  destruct (Merged.count r); simpl; now rewrite IH.
Qed.

Lemma length_dropna_filled (rows : list Merged.row) :
  length (dropna (map Merged.count (fillna_count 0 rows))) = length rows.
Proof.
  unfold fillna_count. change (map _ rows) with (map (fill_row 0) rows).
  now rewrite dropna_filled, length_map.
Qed.

Lemma Qfloor_position (n : Z) :
  1 <= n ->
  0 <= Qfloor (inject_Z (n - 1) * (95 # 100)) <= n - 1 /\
  20 * (n - 1 - Qfloor (inject_Z (n - 1) * (95 # 100))) <= n + 18.
Proof.
  intros Hn.
  assert (E : Qfloor (inject_Z (n - 1) * (95 # 100)) = (n - 1) * 95 / 100).
  { unfold Qfloor, inject_Z, Qmult. simpl. reflexivity. }
  rewrite E.
  pose proof (Z.div_mod ((n - 1) * 95) 100 ltac:(lia)) as Hdm.
  pose proof (Z.mod_pos_bound ((n - 1) * 95) 100 ltac:(lia)) as Hmod.
  lia.
Qed.

(** The 0.95-quantile of a column with at least one number: it is a number,
    no smaller than the entry it interpolates from, and the entries above it
    are at most one in twenty of the others, rounded up. *)
Lemma quantile_095_above (col : list (option Z)) :
  dropna col <> [] ->
  exists cap,
    quantile (95 # 100) col = Some cap /\
    (20 * Z.of_nat (length (filter (fun v => negb (Qle_bool (inject_Z v) cap)) (dropna col)))
     <= Z.of_nat (length (dropna col)) + 18).
Proof.
  intros Hne. unfold quantile.
  pose proof (sort_asc_perm (dropna col)) as Hperm.
  pose proof (sort_asc_sorted (dropna col)) as Hsorted.
  destruct (sort_asc (dropna col)) as [|x0 xs'] eqn:Exs.
  { apply Permutation_nil in Hperm. contradiction. }
  set (xs := x0 :: xs') in *.
  set (n := Z.of_nat (length xs)).
  set (h := (inject_Z (n - 1) * (95 # 100))%Q).
  assert (Hn : 1 <= n) by (unfold n, xs; simpl length; lia).
  destruct (Qfloor_position n Hn) as ((Hi0 & Hi1) & Hbound). fold h in Hi0, Hi1, Hbound.
  set (i := Qfloor h) in *.
  set (lo := nth (Z.to_nat i) xs x0).
  set (hi := nth (Z.to_nat (Z.min (i + 1) (n - 1))) xs x0).
  eexists. split; [reflexivity|].
  assert (Hlohi : lo <= hi).
  { apply sorted_nth_le; [exact Hsorted|]. unfold n in *. lia. }
  assert (Hcap : (inject_Z lo <= inject_Z lo + inject_Z (hi - lo) * (h - inject_Z i))%Q).
  { assert (H1 : (0 <= inject_Z (hi - lo))%Q).
    { change 0%Q with (inject_Z 0). rewrite <- Zle_Qle. lia. }
    assert (H2 : (0 <= h - inject_Z i)%Q).
    { pose proof (Qfloor_le h) as Hf. fold i in Hf.
      apply (Qplus_le_l _ _ (inject_Z i)). ring_simplify. exact Hf. }
    pose proof (Qmult_le_0_compat _ _ H1 H2) as H3.
    apply (Qplus_le_r _ _ (inject_Z lo)) in H3. ring_simplify in H3.
    ring_simplify. exact H3. }
  rewrite <- (Permutation_length Hperm).
  rewrite <- (filter_length_perm _ _ _ Hperm).
  pose proof (sorted_above_nth xs x0 (Z.to_nat i) Hsorted ltac:(unfold n in *; lia)) as Habove.
  fold lo in Habove.
  assert (Hmono : (length (filter (fun v => negb (Qle_bool (inject_Z v)
                     (inject_Z lo + inject_Z (hi - lo) * (h - inject_Z i)))) xs)
                   <= length (filter (fun v => (lo <? v)%Z) xs))%nat).
  { apply filter_length_mono. intros v Hv.
    apply negb_true_iff in Hv. apply Z.ltb_lt.
    destruct (Z.lt_ge_cases lo v) as [Hlt|Hge]; [exact Hlt|].
    exfalso. apply not_true_iff_false in Hv. apply Hv. apply Qle_bool_iff.
    eapply Qle_trans; [|exact Hcap]. now rewrite <- Zle_Qle. }
  fold n. unfold n in *. lia.
Qed.

Lemma merge_left_nonempty (df : list (str * Z)) (gdf : list Feature) :
  gdf <> [] -> merge_left gdf df <> [].
Proof.
  destruct gdf as [|g gdf]; [congruence|]. intros _.
  unfold merge_left. cbn [flat_map].
  destruct (joined_block_nonempty df g) as (r & rs & E & _). rewrite E. discriminate.
Qed.

(** C7. The colour scale of the map runs from 0 to the 0.95-quantile of the
    count column of the joined dataset, taken over all of its entries with
    the missing counts read as 0; an entry whose count exceeds that value sits
    at the top end of the scale, and such entries are at most one in twenty
    of the others, rounded up. *)
Theorem choropleth_color_cap (df : list (str * Z)) (gdf : list Feature) :
  (forall files,
     create_choropleth df gdf files =
       (Ok tt,
        files ++ [index_html
                    {| merged_df := choropleth_data df gdf;
                       range_color := (0%Q, top_tier_value (choropleth_data df gdf)) |}])) /\
  top_tier_value (choropleth_data df gdf) =
    quantile (95 # 100)
      (map (fun r => Some (match Merged.count r with Some v => v | None => 0 end))
           (merge_left gdf df)) /\
  (gdf = [] -> top_tier_value (choropleth_data df gdf) = None) /\
  (gdf <> [] ->
   exists cap,
     top_tier_value (choropleth_data df gdf) = Some cap /\
     (forall r v, In r (choropleth_data df gdf) -> Merged.count r = Some v ->
        (cap < inject_Z v)%Q -> color_position 0 cap (inject_Z v) = 1%Q) /\
     20 * Z.of_nat (length (filter (exceeds cap) (choropleth_data df gdf)))
       <= Z.of_nat (length (choropleth_data df gdf)) + 18).
Proof.
  split; [reflexivity|]. split; [|split].
  - unfold top_tier_value, choropleth_data, fillna_count. rewrite map_map.
    f_equal. apply map_ext. intros r. simpl. now destruct (Merged.count r).
  - intros ->. reflexivity.
  - intros Hne.
    assert (Hlen : length (dropna (map Merged.count (choropleth_data df gdf)))
                   = length (choropleth_data df gdf)).
    { unfold choropleth_data. rewrite length_dropna_filled.
      unfold fillna_count. now rewrite length_map. }
    destruct (quantile_095_above (map Merged.count (choropleth_data df gdf)))
      as (cap & Ecap & Habove).
    { intros Hnil. rewrite Hnil in Hlen. simpl in Hlen.
      apply (merge_left_nonempty df gdf Hne).
      unfold choropleth_data, fillna_count in Hlen. rewrite length_map in Hlen.
      now apply length_zero_iff_nil. }
    exists cap. split; [exact Ecap|]. split.
    + intros r v _ _ Hlt. unfold color_position.
      assert (Hle : Qle_bool cap (inject_Z v) = true).
      { apply Qle_bool_iff. now apply Qlt_le_weak. }
      now rewrite Hle.
    + rewrite exceeds_dropna, <- Hlen. exact Habove.
Qed.

Lemma choropleth_color_cap_witness :
  exists cap,
    top_tier_value
      (choropleth_data [(lit "AJACCIO", 4)]
         [{| nom := lit "AJACCIO"; geometry := [] |}; {| nom := lit "ZONZA"; geometry := [] |}])
      = Some cap /\
    (cap == 38 # 10)%Q.
Proof.
  destruct (proj2 (proj2 (proj2
             (choropleth_color_cap [(lit "AJACCIO", 4)]
                [{| nom := lit "AJACCIO"; geometry := [] |};
                 {| nom := lit "ZONZA"; geometry := [] |}])))
             ltac:(discriminate)) as (cap & Ecap & _).
  exists cap. split; [exact Ecap|].
  vm_compute in Ecap. injection Ecap as <-. reflexivity.
Defined.

(** ** The join keys of the two datasets *)

Lemma unidecode_ascii (s : str) :
  Forall (fun c => (c < 128)%N) s -> unidecode s = s.
Proof.
  induction 1 as [|c s Hc _ IH]; [reflexivity|].
  unfold unidecode in *. cbn [flat_map]. rewrite IH.
  unfold unidecode_char. apply N.ltb_lt in Hc. now rewrite Hc.
Qed.

(** On names without accents the two normalizations agree: a sample name
    that differs from the boundary name only in letter case gets its key. *)
Lemma ascii_names_same_key (sample boundary : str) :
  Forall (fun c => (c < 128)%N) boundary ->
  str_upper sample = str_upper boundary ->
  str_upper sample = remove_accents_and_uppercase boundary.
Proof.
  intros Hb E. unfold remove_accents_and_uppercase. now rewrite (unidecode_ascii _ Hb).
Qed.

(** C1 on that run: the sample key keeps the accent that the boundary key
    loses, although the normalization routine maps both names to the same
    key; the sample's commune is ranked with one occurrence, and the join
    leaves the polygon of Ajaccio without partner, with count 0. *)
Theorem main_accented_sample_unmatched :
  str_upper ([195%N] ++ lit "jaccio") = [195%N] ++ lit "JACCIO" /\
  remove_accents_and_uppercase (lit "Ajaccio") = lit "AJACCIO" /\
  remove_accents_and_uppercase ([195%N] ++ lit "jaccio") = lit "AJACCIO" /\
  exists heat bar,
    main to_datetime_iso accented_glob accented_read_csv accented_read_file
         sort_desc_stable [] =
      (Ok tt,
       [heatmap_png heat; barplot_png bar;
        index_html {| merged_df := [Merged.mk (lit "AJACCIO") [] None (Some 0)];
                      range_color := (0%Q, Some (0 # 100)) |}]) /\
    bars bar = [([195%N] ++ lit "JACCIO", 1)].
Proof.
  split; [reflexivity|]. split; [reflexivity|]. split; [reflexivity|].
  eexists. eexists. split; vm_compute; reflexivity.
Qed.

(* ================================================================== *)
(** * Further properties *)

(** ** The normalization routine *)

Lemma str_upper_app (a b : str) : str_upper (a ++ b) = str_upper a ++ str_upper b.
Proof. apply flat_map_app. Qed.

Lemma unidecode_app (a b : str) : unidecode (a ++ b) = unidecode a ++ unidecode b.
Proof. apply flat_map_app. Qed.

Lemma remove_accents_and_uppercase_app (a b : str) :
  remove_accents_and_uppercase (a ++ b) =
  remove_accents_and_uppercase a ++ remove_accents_and_uppercase b.
Proof.
  unfold remove_accents_and_uppercase. now rewrite unidecode_app, str_upper_app.
Qed.

Lemma unidecode_char_ascii (c : codepoint) :
  Forall (fun c' => (c' < 128)%N) (unidecode_char c).
Proof.
  unfold unidecode_char.
  destruct (c <? 128)%N eqn:E; [constructor; [now apply N.ltb_lt | constructor]|].
  repeat match goal with
         | |- context [if ?b then _ else _] =>
             destruct b; [vm_compute; repeat constructor|]
         end.
  constructor.
Qed.

Lemma upper_char_ascii (c : codepoint) :
  (c < 128)%N -> forallb is_key_char (upper_char c) = true.
Proof.
  intros Hc. unfold upper_char.
  destruct ((97 <=? c) && (c <=? 122))%N eqn:E.
  - apply andb_true_iff in E as (E1 & E2). apply N.leb_le in E1, E2.
    cbn [forallb]. rewrite andb_true_r. unfold is_key_char.
    apply andb_true_iff. split; [apply N.ltb_lt; lia|].
    apply negb_true_iff, andb_false_iff. left. apply N.leb_gt. lia.
  - assert (E1 : (c =? 181)%N = false) by (apply N.eqb_neq; lia).
    assert (E2 : (c =? 223)%N = false) by (apply N.eqb_neq; lia).
    assert (E3 : (224 <=? c)%N = false) by (apply N.leb_gt; lia).
    assert (E4 : (c =? 255)%N = false) by (apply N.eqb_neq; lia).
    assert (E5 : (c =? 339)%N = false) by (apply N.eqb_neq; lia).
    rewrite E1, E2, E3, E4, E5. cbn [andb forallb]. rewrite andb_true_r.
    unfold is_key_char. rewrite E. apply N.ltb_lt in Hc. now rewrite Hc.
Qed.

Lemma normalized_is_key (s : str) :
  forallb is_key_char (remove_accents_and_uppercase s) = true.
Proof.
  unfold remove_accents_and_uppercase.
  assert (Ha : Forall (fun c => (c < 128)%N) (unidecode s)).
  { unfold unidecode. induction s as [|c s IH]; [constructor|].
    cbn [flat_map]. apply Forall_app. split; [apply unidecode_char_ascii | exact IH]. }
  induction Ha as [|c t Hc _ IH]; [reflexivity|].
  unfold str_upper in *. cbn [flat_map]. rewrite forallb_app, IH, andb_true_r.
  now apply upper_char_ascii.
Qed.

Lemma key_fixed (s : str) :
  forallb is_key_char s = true -> remove_accents_and_uppercase s = s.
Proof.
  induction s as [|c s IH]; [reflexivity|].
  cbn [forallb]. intros H. apply andb_true_iff in H as (Hc & Hs).
  change (c :: s) with ([c] ++ s) at 1.
  rewrite remove_accents_and_uppercase_app, (IH Hs). f_equal.
  unfold is_key_char in Hc. apply andb_true_iff in Hc as (H1 & H2).
  apply negb_true_iff in H2.
  unfold remove_accents_and_uppercase, unidecode, str_upper. cbn [flat_map].
  unfold unidecode_char. rewrite H1. cbn [app flat_map]. rewrite app_nil_r.
  unfold upper_char. rewrite H2. apply N.ltb_lt in H1.
  assert (E1 : (c =? 181)%N = false) by (apply N.eqb_neq; lia).
  assert (E2 : (c =? 223)%N = false) by (apply N.eqb_neq; lia).
  assert (E3 : (224 <=? c)%N = false) by (apply N.leb_gt; lia).
  assert (E4 : (c =? 255)%N = false) by (apply N.eqb_neq; lia).
  assert (E5 : (c =? 339)%N = false) by (apply N.eqb_neq; lia).
  now rewrite E1, E2, E3, E4, E5.
Qed.

(** X1. On names written with ASCII and the accented Latin letters, the
    normalization routine yields a canonical key: its result holds only ASCII
    code points and no lower-case letter, and normalizing a result again
    leaves it as it is. *)
Theorem remove_accents_and_uppercase_canonical (str_val : str) :
  forallb in_repertoire str_val = true ->
  forallb is_key_char (remove_accents_and_uppercase str_val) = true /\
  remove_accents_and_uppercase (remove_accents_and_uppercase str_val) =
    remove_accents_and_uppercase str_val.
Proof.
  intros _. split; [apply normalized_is_key | apply key_fixed, normalized_is_key].
Qed.

Lemma remove_accents_and_uppercase_canonical_witness :
  forallb is_key_char (remove_accents_and_uppercase ([206%N] ++ lit "le-Rousse")) = true /\
  remove_accents_and_uppercase (remove_accents_and_uppercase ([206%N] ++ lit "le-Rousse")) =
    remove_accents_and_uppercase ([206%N] ++ lit "le-Rousse").
Proof.
  apply (remove_accents_and_uppercase_canonical ([206%N] ++ lit "le-Rousse")).
  reflexivity.
Defined.

Lemma below_400_listed (c : codepoint) :
  (c < 400)%N -> In c (map N.of_nat (seq 0 400)).
Proof.
  intros Hc. apply in_map_iff. exists (N.to_nat c).
  split; [apply N2Nat.id | apply in_seq; lia].
Qed.

Lemma normalize_upper_char (c : codepoint) :
  (c < 400)%N ->
  remove_accents_and_uppercase (upper_char c) = remove_accents_and_uppercase [c].
Proof.
  intros Hc.
  assert (Hall : forallb (fun c => str_eqb (remove_accents_and_uppercase (upper_char c))
                                           (remove_accents_and_uppercase [c]))
                         (map N.of_nat (seq 0 400)) = true) by (vm_compute; reflexivity).
  rewrite forallb_forall in Hall. apply str_eqb_eq, Hall. now apply below_400_listed.
Qed.

Lemma in_repertoire_below (c : codepoint) : in_repertoire c = true -> (c < 400)%N.
Proof.
  unfold in_repertoire. rewrite !orb_true_iff, andb_true_iff, !N.eqb_eq, N.ltb_lt, !N.leb_le.
  lia.
Qed.

(** X2. On names written with ASCII and the accented Latin letters,
    upper-casing a name before normalizing it does not change the key: the
    routine gives the upper-cased name the key of the name itself. *)
Theorem remove_accents_and_uppercase_after_upper (str_val : str) :
  forallb in_repertoire str_val = true ->
  remove_accents_and_uppercase (str_upper str_val) =
  remove_accents_and_uppercase str_val.
Proof.
  induction str_val as [|c s IH]; [reflexivity|].
  cbn [forallb]. intros H. apply andb_true_iff in H as (Hc & Hs).
  unfold str_upper in *. cbn [flat_map].
  change (c :: s) with ([c] ++ s).
  rewrite !remove_accents_and_uppercase_app, (IH Hs). f_equal.
  now apply normalize_upper_char, in_repertoire_below.
Qed.

Lemma remove_accents_and_uppercase_after_upper_witness :
  remove_accents_and_uppercase (str_upper ([206%N] ++ lit "le-Rousse")) =
  remove_accents_and_uppercase ([206%N] ++ lit "le-Rousse").
Proof.
  apply (remove_accents_and_uppercase_after_upper ([206%N] ++ lit "le-Rousse")).
  reflexivity.
Defined.

(** ** The transformer: errors, row order, shape of the result *)

Lemma filter_perm {A : Type} (f : A -> bool) (l l' : list A) :
  Permutation l l' -> Permutation (filter f l) (filter f l').
Proof.
  induction 1 as [|x l l' _ IH|x y l|l l' l'' _ IH1 _ IH2]; simpl.
  - constructor.
  - destruct (f x); [now constructor | exact IH].
  - destruct (f x), (f y); try reflexivity. apply perm_swap.
  - now transitivity (filter f l').
Qed.

Lemma groupby_size_perm {K A : Type} `{CompareLaws K} (by_ : A -> K) (l l' : list A) :
  Permutation l l' -> groupby_size by_ l = groupby_size by_ l'.
Proof.
  intros Hp. unfold groupby_size.
  rewrite (group_keys_ext (map by_ l) (map by_ l')).
  - apply map_ext. intros k. do 2 f_equal. now apply filter_length_perm.
  - intros k. split; apply Permutation_in; [|symmetry]; now apply Permutation_map.
Qed.

Lemma text_column_perm (col col' : list (option str)) :
  Permutation col col' -> text_column col = text_column col'.
Proof.
  intros Hp. unfold text_column.
  assert (He : existsb is_text col = existsb is_text col').
  { destruct (existsb is_text col') eqn:E'.
    - apply existsb_exists in E' as (c & Hc & Et). apply existsb_exists.
      exists c. split; [|exact Et]. now apply (Permutation_in _ (Permutation_sym Hp)).
    - destruct (existsb is_text col) eqn:E; [|reflexivity].
      apply existsb_exists in E as (c & Hc & Et).
      rewrite <- E'. symmetry. apply existsb_exists.
      exists c. split; [|exact Et]. now apply (Permutation_in _ Hp). }
  destruct col as [|c col], col' as [|c' col']; try reflexivity; try exact He.
  - apply Permutation_nil in Hp. discriminate.
  - apply Permutation_sym, Permutation_nil in Hp. discriminate.
Qed.

Lemma matching_rows_nonempty
  (to_datetime : list (option str) -> str -> option Timestamp)
  (df : list Raw.row) (k : Z * Z * str) :
  In k (counted_keys to_datetime df) -> matching_rows to_datetime df k <> [].
Proof.
  intros Hk Hnil. apply in_observed_keys in Hk as (r & Hr & Ek).
  apply filter_In in Hr as (Hr & Hm).
  assert (Hin : In r (matching_rows to_datetime df k)).
  { apply filter_In. split; [exact Hr|]. now rewrite Hm, Ek, key_eqb_refl. }
  rewrite Hnil in Hin. destruct Hin.
Qed.

(** X3. The outcomes of the transformer. It returns a table exactly when
    every date cell that is not empty can be read and neither the commune
    column nor the conclusion column has rows without any text. Otherwise it
    raises: on the first date cell that cannot be read, whatever the
    conclusion of its row; and, when the dates can be read, [AttributeError]
    for a commune or conclusion column that has rows and no text. An empty
    date cell raises nothing. A file whose single row has no conclusion is
    not transformed. *)
Theorem process_dataframe_outcomes :
  (forall (to_datetime : list (option str) -> str -> option Timestamp) (df : list Raw.row),
     (transformable to_datetime df /\
      exists out, process_dataframe to_datetime df = Ok out) \/
     (exists pre cell post,
        map Raw.dateprel df = pre ++ Some cell :: post /\
        (forall c, In (Some c) pre -> to_datetime (map Raw.dateprel df) c <> None) /\
        to_datetime (map Raw.dateprel df) cell = None /\
        process_dataframe to_datetime df = Raise (DateParseError cell)) \/
     (dates_readable to_datetime df /\
      (text_column (map Raw.nomcommuneprinc df) = false \/
       text_column (map Raw.conclusionprel df) = false) /\
      process_dataframe to_datetime df =
        Raise (AttributeError "Can only use .str accessor with string values!"))) /\
  process_dataframe to_datetime_iso
    [Raw.mk (Some (lit "2016-03-01")) (Some (lit "Ajaccio")) None] =
    Raise (AttributeError "Can only use .str accessor with string values!") /\
  process_dataframe to_datetime_iso
    [Raw.mk None (Some (lit "Ajaccio")) (Some (lit "Eau conforme"))] =
    Ok {| columns := ["year"; "month"; "nomcommuneprinc"; "count"]%string; records := [] |}.
Proof.
  split; [|split; reflexivity].
  intros to_datetime df.
  destruct (parse_cells_first_unreadable (to_datetime (map Raw.dateprel df))
              (map Raw.dateprel df)) as [Hr|(pre & cell & post & Ecol & Hpre & Ecell & Ep)].
  - assert (Hd : dates_readable to_datetime df).
    { intros r cell Hin Ec. apply Hr. rewrite <- Ec. now apply in_map. }
    destruct (text_column (map Raw.nomcommuneprinc df)) eqn:Hc.
    + destruct (text_column (map Raw.conclusionprel df)) eqn:Hk.
      * left. split; [now repeat split|].
        eexists. apply process_dataframe_ok. now repeat split.
      * right. right. split; [exact Hd|]. split; [now right|].
        unfold process_dataframe. rewrite (parse_cells_ok _ _ Hr).
        unfold Series_str_upper, Series_str_contains, str_accessor.
        now rewrite Hc, Hk.
    + right. right. split; [exact Hd|]. split; [now left|].
      unfold process_dataframe. rewrite (parse_cells_ok _ _ Hr).
      unfold Series_str_upper, str_accessor. now rewrite Hc.
  - right. left. exists pre, cell, post. repeat split; auto.
    unfold process_dataframe. now rewrite Ep.
Qed.

(** X4. The rows of the table that the transformer returns are in strictly
    increasing order of (year, month, commune), and each count is at least 1:
    a group without matching sample has no row. *)
Theorem process_dataframe_sorted_positive
  (to_datetime : list (option str) -> str -> option Timestamp)
  (df : list Raw.row) (out : DataFrame) :
  process_dataframe to_datetime df = Ok out ->
  StronglySorted key_lt (map Agg.key (records out)) /\
  Forall (fun g => 1 <= Agg.count g) (records out).
Proof.
  intros Eo. split.
  - rewrite (process_dataframe_keys to_datetime df out Eo).
    apply group_keys_sorted.
  - apply Forall_forall. intros g Hg.
    destruct (process_dataframe_count to_datetime df out g Eo Hg) as (Hk & ->).
    pose proof (matching_rows_nonempty to_datetime df _ Hk) as Hne.
    destruct (matching_rows to_datetime df (Agg.key g)); [congruence | simpl; lia].
Qed.

Lemma process_dataframe_sorted_positive_witness :
  Forall (fun g => 1 <= Agg.count g) [Agg.mk 2020 3 (lit "AJACCIO") 3].
Proof.
  exact (proj2 (process_dataframe_sorted_positive to_datetime_iso ajaccio_march_2020
                  {| columns := ["year"; "month"; "nomcommuneprinc"; "count"]%string;
                     records := [Agg.mk 2020 3 (lit "AJACCIO") 3] |} eq_refl)).
Defined.

(** X5. The table that the transformer returns does not depend on the order
    of the rows of the frame, as long as [pd.to_datetime] reads the date
    column of the reordered frame as it reads the original one. It need not:
    in a column of dates written with slashes the first cell settles whether
    the day or the month comes first, so 13/03/2020 followed by 03/04/2020
    is read as 13 March and 3 April, and with the two rows exchanged the
    transformer raises on 13/03/2020. *)
Theorem process_dataframe_row_order :
  (forall (to_datetime : list (option str) -> str -> option Timestamp)
          (df df' : list Raw.row) (out : DataFrame),
     Permutation df df' ->
     (forall cell, to_datetime (map Raw.dateprel df') cell =
                   to_datetime (map Raw.dateprel df) cell) ->
     process_dataframe to_datetime df = Ok out ->
     process_dataframe to_datetime df' = Ok out) /\
  process_dataframe to_datetime_slash
    [sample "13/03/2020" "Ajaccio" "Eau d'alimentation non-conforme";
     sample "03/04/2020" "Ajaccio" "Eau d'alimentation non-conforme"] =
    Ok {| columns := ["year"; "month"; "nomcommuneprinc"; "count"]%string;
          records := [Agg.mk 2020 3 (lit "AJACCIO") 1; Agg.mk 2020 4 (lit "AJACCIO") 1] |} /\
  process_dataframe to_datetime_slash
    [sample "03/04/2020" "Ajaccio" "Eau d'alimentation non-conforme";
     sample "13/03/2020" "Ajaccio" "Eau d'alimentation non-conforme"] =
    Raise (DateParseError (lit "13/03/2020")).
Proof.
  split; [|split; reflexivity].
  intros to_datetime df df' out Hp Hread Eo.
  assert (Hkey : forall r, raw_key to_datetime df' r = raw_key to_datetime df r).
  { intros r. unfold raw_key, raw_date, read_cell.
    destruct (Raw.dateprel r); [now rewrite Hread | reflexivity]. }
  destruct (process_dataframe_transformable to_datetime df out Eo) as (Hd & Hc & Hk).
  assert (Ht' : transformable to_datetime df').
  { split; [|split].
    - intros r cell Hr Ec. rewrite Hread. apply (Hd r cell); [|exact Ec].
      now apply (Permutation_in _ (Permutation_sym Hp)).
    - rewrite <- Hc. symmetry. now apply text_column_perm, Permutation_map.
    - rewrite <- Hk. symmetry. now apply text_column_perm, Permutation_map. }
  rewrite (process_dataframe_ok to_datetime df' Ht').
  rewrite (process_dataframe_ok to_datetime df (conj Hd (conj Hc Hk))) in Eo.
  rewrite <- Eo. do 3 f_equal. apply groupby_size_perm.
  unfold counted_keys, observed_keys.
  rewrite (flat_map_ext _ (fun r => match raw_key to_datetime df r with
                                    | Some k => [k]
                                    | None => []
                                    end)).
  - apply Permutation_flat_map, filter_perm. now symmetry.
  - intros r. now rewrite Hkey.
Qed.

Lemma process_dataframe_row_order_witness :
  process_dataframe to_datetime_iso (rev ajaccio_march_2020) =
    Ok {| columns := ["year"; "month"; "nomcommuneprinc"; "count"]%string;
          records := [Agg.mk 2020 3 (lit "AJACCIO") 3] |}.
Proof.
  apply (proj1 process_dataframe_row_order to_datetime_iso ajaccio_march_2020
           (rev ajaccio_march_2020)).
  - apply Permutation_rev.
  - reflexivity.
  - reflexivity.
Defined.

(** ** The loader: skipped years, failing files, totals of a run *)

Section LoaderMore.

Variable to_datetime : list (option str) -> str -> option Timestamp.
Variable glob : Z -> list string.
Variable read_csv : string -> result (list Raw.row).

Lemma input_files_has_files (year_range : list Z) :
  input_files glob (filter (has_files glob) year_range) = input_files glob year_range.
Proof.
  unfold input_files. induction year_range as [|y ys IH]; [reflexivity|].
  cbn [filter flat_map]. unfold has_files at 1.
  destruct (glob y) as [|p ps] eqn:E.
  - exact IH.
  - cbn [flat_map]. now rewrite E, IH.
Qed.

Lemma load_files_raise (pre post : list string) (p : string) (e : exn) (df0 : DataFrame) :
  Forall (fun q => exists out, per_file to_datetime read_csv q = Ok out) pre ->
  per_file to_datetime read_csv p = Raise e ->
  load_files to_datetime read_csv (pre ++ p :: post) df0 = Raise e.
Proof.
  intros Hpre Hp. revert df0.
  induction Hpre as [|q pre (out & Hq) _ IH]; intros df0; simpl.
  - unfold per_file in Hp. destruct (read_csv p) as [raw|e']; simpl in *.
    + now rewrite Hp.
    + exact Hp.
  - unfold per_file in Hq. destruct (read_csv q) as [raw|e']; simpl in *; [|discriminate].
    rewrite Hq. simpl. apply IH.
Qed.

End LoaderMore.

(** X6. Years for which the glob matches no file are skipped: the loader
    returns what it returns on the year range without them, be it a table or
    an exception. *)
Theorem load_and_process_data_skips_years
  (to_datetime : list (option str) -> str -> option Timestamp) (glob : Z -> list string)
  (read_csv : string -> result (list Raw.row)) (year_range : list Z) :
  load_and_process_data to_datetime glob read_csv year_range =
  load_and_process_data to_datetime glob read_csv (filter (has_files glob) year_range).
Proof.
  unfold load_and_process_data. now rewrite !load_years_files, input_files_has_files.
Qed.

(** X7. The loader stops at the first file that cannot be read or
    transformed and raises its exception, whatever the files after it hold;
    the run then ends with that exception before any output file is
    written. *)
Theorem load_and_process_data_first_failure
  (to_datetime : list (option str) -> str -> option Timestamp) (glob : Z -> list string)
  (read_csv : string -> result (list Raw.row))
  (read_file : string -> result (list Feature))
  (sort_values : list (str * Z) -> list (str * Z))
  (year_range : list Z) (pre post : list string) (p : string) (e : exn) :
  input_files glob year_range = pre ++ p :: post ->
  Forall (fun q => exists out, per_file to_datetime read_csv q = Ok out) pre ->
  per_file to_datetime read_csv p = Raise e ->
  load_and_process_data to_datetime glob read_csv year_range = Raise e /\
  (year_range = range 2016 2024 ->
   forall files,
     main to_datetime glob read_csv read_file sort_values files = (Raise e, files)).
Proof.
  intros Ef Hpre Hp.
  assert (El : load_and_process_data to_datetime glob read_csv year_range = Raise e).
  { unfold load_and_process_data. rewrite load_years_files, Ef.
    now apply load_files_raise. }
  split; [exact El|].
  intros -> files. unfold main, io_bind, io_lift. now rewrite El.
Qed.

Lemma load_and_process_data_first_failure_witness :
  load_and_process_data to_datetime_iso two_files_glob
    (fun path =>
       if String.eqb path "./dataset/DIS_PLV_2016_1.txt"
       then Ok [sample "2016-03-01" "Ajaccio" "Eau conforme"]
       else Raise (ParserError path))
    (range 2016 2024) = Raise (ParserError "./dataset/DIS_PLV_2016_2.txt").
Proof.
  apply (proj1 (load_and_process_data_first_failure
                  to_datetime_iso two_files_glob
                  (fun path =>
                     if String.eqb path "./dataset/DIS_PLV_2016_1.txt"
                     then Ok [sample "2016-03-01" "Ajaccio" "Eau conforme"]
                     else Raise (ParserError path))
                  accented_read_file sort_desc_stable (range 2016 2024)
                  ["./dataset/DIS_PLV_2016_1.txt"%string] []
                  "./dataset/DIS_PLV_2016_2.txt"
                  (ParserError "./dataset/DIS_PLV_2016_2.txt")
                  eq_refl
                  ltac:(repeat constructor; eexists; reflexivity)
                  eq_refl)).
Defined.

Lemma Zsum_perm (l l' : list Z) : Permutation l l' -> Zsum l = Zsum l'.
Proof. induction 1; simpl; lia. Qed.

Lemma count_table_concat (a b : DataFrame) :
  columns a = [] \/ count_table a -> count_table b -> count_table (pd_concat a b).
Proof.
  unfold count_table, pd_concat, has_column. simpl. intros [Ea|Ea] Eb; rewrite Ea, Eb; reflexivity.
Qed.

Lemma count_table_concat_all (outs : list DataFrame) (df0 : DataFrame) :
  columns df0 = [] \/ count_table df0 ->
  Forall count_table outs -> outs <> [] ->
  count_table (concat_all df0 outs).
Proof.
  intros H0 Houts. revert df0 H0.
  induction Houts as [|out outs Hout Houts IH]; intros df0 H0 Hne; [congruence|].
  unfold concat_all in *. cbn [fold_left].
  destruct outs as [|out' outs'].
  - cbn [fold_left]. now apply count_table_concat.
  - apply IH; [right; now apply count_table_concat | discriminate].
Qed.

Lemma filter_concat_length {A : Type} (f : A -> bool) (ls : list (list A)) :
  Z.of_nat (length (filter f (concat ls))) =
  Zsum (map (fun l => Z.of_nat (length (filter f l))) ls).
Proof.
  induction ls as [|l ls IH]; [reflexivity|].
  cbn [concat map Zsum fold_right]. rewrite filter_app, length_app, Nat2Z.inj_add.
  fold (Zsum (map (fun l => Z.of_nat (length (filter f l))) ls)). lia.
Qed.

Lemma records_flat_map_sum (outs : list DataFrame) :
  Zsum (map Agg.count (flat_map records outs)) =
  Zsum (map (fun out => Zsum (map Agg.count (records out))) outs).
Proof.
  induction outs as [|out outs IH]; [reflexivity|].
  cbn [flat_map map Zsum fold_right]. rewrite map_app, Zsum_app.
  fold (Zsum (map (fun out => Zsum (map Agg.count (records out))) outs)). lia.
Qed.

(** X8. In a run that reads at least one file, all of whose files are read
    and transformed, the totals of the ranked per-commune table add up to the
    number of rows of all input files that match the filter and have both a
    date and a commune, and so do the (year, month) totals of the heatmap:
    transforming file by file loses the matching rows without date or
    commune and no other, and counts none twice. *)
Theorem pipeline_totals
  (to_datetime : list (option str) -> str -> option Timestamp) (glob : Z -> list string)
  (read_csv : string -> result (list Raw.row))
  (sort_values : list (str * Z) -> list (str * Z))
  (year_range : list Z) (raws : list (list Raw.row)) :
  Forall2 (fun p raw => read_csv p = Ok raw) (input_files glob year_range) raws ->
  Forall (transformable to_datetime) raws ->
  raws <> [] ->
  sort_contract sort_values ->
  exists table ranked totals,
    load_and_process_data to_datetime glob read_csv year_range = Ok table /\
    commune_counts sort_values table = Ok ranked /\
    heatmap_df table = Ok totals /\
    Zsum (map snd ranked) =
      Z.of_nat (length (filter (fun r => matches_filter r && has_key_cells r)
                               (concat raws))) /\
    Zsum (map snd totals) =
      Z.of_nat (length (filter (fun r => matches_filter r && has_key_cells r)
                               (concat raws))).
Proof.
  intros Hread Hdates Hne (Hperm & _).
  set (counted := fun r => matches_filter r && has_key_cells r).
  assert (Houts : exists outs,
             Forall2 (fun p out => per_file to_datetime read_csv p = Ok out)
                     (input_files glob year_range) outs /\
             Forall count_table outs /\
             length outs = length raws /\
             map (fun out => Zsum (map Agg.count (records out))) outs =
             map (fun raw => Z.of_nat (length (filter counted raw))) raws).
  { clear Hne. induction Hread as [|p raw paths raws Hp Hread IH].
    - exists []. repeat split; constructor.
    - inversion Hdates as [|? ? Hd Hds]; subst.
      destruct (IH Hds) as (outs & Hf & Hc & Hl & Hs).
      pose proof (process_dataframe_ok to_datetime raw Hd) as Eo.
      set (out := {| columns := _; records := _ |}) in Eo.
      exists (out :: outs). repeat split.
      + constructor; [|exact Hf]. unfold per_file. now rewrite Hp.
      + constructor; [reflexivity | exact Hc].
      + simpl. now rewrite Hl.
      + cbn [map]. now rewrite (process_dataframe_total to_datetime raw out Eo), Hs. }
  destruct Houts as (outs & Hf & Hc & Hl & Hs).
  assert (Hne' : outs <> []).
  { intros ->. destruct raws; [congruence | discriminate]. }
  set (table := concat_all pd_DataFrame outs).
  assert (Ht : count_table table).
  { apply count_table_concat_all; auto. }
  assert (Etot : Zsum (map Agg.count (records table)) =
                 Z.of_nat (length (filter counted (concat raws)))).
  { unfold table. rewrite records_concat_all. simpl.
    now rewrite records_flat_map_sum, Hs, filter_concat_length. }
  exists table, (sort_values (groupby_sum Agg.nomcommuneprinc Agg.count (records table))),
    (groupby_sum year_month Agg.count (records table)).
  split.
  { unfold load_and_process_data. rewrite load_years_files. now apply load_files_ok. }
  split; [now apply commune_counts_ok|]. split; [now apply heatmap_df_ok|]. split.
  - rewrite (Zsum_perm _ _ (Permutation_map snd (Hperm _))).
    now rewrite groupby_sum_total.
  - now rewrite groupby_sum_total.
Qed.

Lemma pipeline_totals_witness :
  exists table ranked totals,
    load_and_process_data to_datetime_iso two_files_glob
      (fun path =>
         if String.eqb path "./dataset/DIS_PLV_2016_1.txt"
         then Ok sample_without_commune
         else Ok sample_without_date)
      (range 2016 2024) = Ok table /\
    commune_counts sort_desc_stable table = Ok ranked /\
    heatmap_df table = Ok totals /\
    Zsum (map snd ranked) = 2 /\
    Zsum (map snd totals) = 2.
Proof.
  apply (pipeline_totals to_datetime_iso two_files_glob
           (fun path =>
              if String.eqb path "./dataset/DIS_PLV_2016_1.txt"
              then Ok sample_without_commune
              else Ok sample_without_date)
           sort_desc_stable (range 2016 2024)
           [sample_without_commune; sample_without_date]).
  - repeat constructor.
  - repeat constructor; try reflexivity.
    + intros r cell [<-|[<-|[]]] [= <-]; vm_compute; discriminate.
    + intros r cell [<-|[<-|[]]]; [discriminate|]. intros [= <-]. vm_compute. discriminate.
  - discriminate.
  - exact sort_desc_stable_contract.
Defined.

(** ** The heatmap grid: shape and independence of the row order *)

Lemma heatmap_pivot_explicit (df : DataFrame) :
  count_table df ->
  heatmap_pivot df =
    Ok {| pv_index := group_keys (map Agg.month (records df));
          pv_columns := group_keys (map Agg.year (records df));
          pv_values :=
            map (fun m =>
                   map (fun y => pivot_cell (groupby_sum year_month Agg.count (records df)) m y)
                       (group_keys (map Agg.year (records df))))
                (group_keys (map Agg.month (records df))) |}.
Proof.
  intros Hc. unfold heatmap_pivot. rewrite (heatmap_df_ok df Hc). simpl.
  unfold pivot. now rewrite heatmap_rows_no_dup, heatmap_rows_months, heatmap_rows_years.
Qed.

Lemma heatmap_cell (rows : list Agg.row) (m y : Z) :
  pivot_cell (groupby_sum year_month Agg.count rows) m y =
  if existsb (key_eqb (y, m)) (group_keys (map year_month rows))
  then Some (month_year_total m y rows) else None.
Proof.
  unfold groupby_sum. rewrite pivot_cell_keyed, group_year_month. reflexivity.
Qed.

Lemma heatmap_loc_of_row (df : DataFrame) (p : Pivot) (r : Agg.row) :
  count_table df -> heatmap_pivot df = Ok p -> In r (records df) ->
  In (Agg.month r) (pv_index p) /\ In (Agg.year r) (pv_columns p) /\
  pivot_loc p (Agg.month r) (Agg.year r) =
    Some (Some (month_year_total (Agg.month r) (Agg.year r) (records df))).
Proof.
  intros Hc Ep Hr. rewrite (heatmap_pivot_explicit df Hc) in Ep. injection Ep as <-.
  cbn [pv_index pv_columns].
  assert (Hm : In (Agg.month r) (group_keys (map Agg.month (records df)))).
  { apply in_group_keys. now apply in_map. }
  assert (Hy : In (Agg.year r) (group_keys (map Agg.year (records df)))).
  { apply in_group_keys. now apply in_map. }
  split; [exact Hm|]. split; [exact Hy|].
  unfold pivot_loc. cbn [pv_index pv_columns pv_values].
  rewrite (lookup_label_map
             (fun m => map (fun y => pivot_cell _ m y) (group_keys (map Agg.year (records df))))).
  rewrite (proj2 (existsb_eqb_In _ _) Hm).
  rewrite (lookup_label_map (fun y => pivot_cell _ (Agg.month r) y)).
  rewrite (proj2 (existsb_eqb_In _ _) Hy), heatmap_cell.
  assert (Hne : month_year_rows (Agg.month r) (Agg.year r) (records df) <> []).
  { intros Hnil.
    assert (Hin : In r (month_year_rows (Agg.month r) (Agg.year r) (records df))).
    { apply filter_In. split; [exact Hr|]. now rewrite !Z.eqb_refl. }
    rewrite Hnil in Hin. destruct Hin. }
  apply existsb_year_month in Hne. now rewrite Hne.
Qed.

(** X9. The grid of the heatmap is rectangular, its month rows and its year
    columns are in strictly increasing order, and it has no empty line: every
    month row holds a number for some year and every year column holds a
    number for some month. *)
Theorem heatmap_pivot_shape (df : DataFrame) :
  count_table df ->
  exists p,
    heatmap_pivot df = Ok p /\
    StronglySorted Z.lt (pv_index p) /\
    StronglySorted Z.lt (pv_columns p) /\
    length (pv_values p) = length (pv_index p) /\
    Forall (fun row => length row = length (pv_columns p)) (pv_values p) /\
    (forall m, In m (pv_index p) ->
       exists y v, In y (pv_columns p) /\ pivot_loc p m y = Some (Some v)) /\
    (forall y, In y (pv_columns p) ->
       exists m v, In m (pv_index p) /\ pivot_loc p m y = Some (Some v)).
Proof.
  intros Hc. pose proof (heatmap_pivot_explicit df Hc) as Ep.
  eexists. split; [exact Ep|]. cbn [pv_index pv_columns pv_values].
  split; [exact (group_keys_sorted (map Agg.month (records df)))|].
  split; [exact (group_keys_sorted (map Agg.year (records df)))|].
  split; [apply length_map|]. split.
  - apply Forall_forall. intros row Hrow. apply in_map_iff in Hrow as (m & <- & _).
    apply length_map.
  - split.
    + intros m Hm. apply in_group_keys, in_map_iff in Hm as (r & <- & Hr).
      destruct (heatmap_loc_of_row df _ r Hc Ep Hr) as (_ & Hy & Hloc).
      eexists. eexists. split; [exact Hy | exact Hloc].
    + intros y Hy. apply in_group_keys, in_map_iff in Hy as (r & <- & Hr).
      destruct (heatmap_loc_of_row df _ r Hc Ep Hr) as (Hm & _ & Hloc).
      eexists. eexists. split; [exact Hm | exact Hloc].
Qed.

Lemma heatmap_pivot_shape_witness :
  exists p,
    heatmap_pivot
      {| columns := ["year"; "month"; "nomcommuneprinc"; "count"]%string;
         records := [Agg.mk 2020 1 (lit "CORTE") 1; Agg.mk 2019 7 (lit "BASTIA") 2] |} = Ok p /\
    StronglySorted Z.lt (pv_index p) /\
    StronglySorted Z.lt (pv_columns p).
Proof.
  destruct (heatmap_pivot_shape
              {| columns := ["year"; "month"; "nomcommuneprinc"; "count"]%string;
                 records := [Agg.mk 2020 1 (lit "CORTE") 1;
                             Agg.mk 2019 7 (lit "BASTIA") 2] |} eq_refl)
    as (p & Ep & Hi & Hcol & _).
  exists p. auto.
Defined.

Lemma groupby_sum_perm {K A : Type} `{CompareLaws K} (by_ : A -> K) (col : A -> Z)
  (l l' : list A) :
  Permutation l l' -> groupby_sum by_ col l = groupby_sum by_ col l'.
Proof.
  intros Hp. unfold groupby_sum.
  rewrite (group_keys_ext (map by_ l) (map by_ l')).
  - apply map_ext. intros k. f_equal. apply Zsum_perm, Permutation_map.
    unfold group. now apply filter_perm.
  - intros k. split; apply Permutation_in; [|symmetry]; now apply Permutation_map.
Qed.

(** The data of the heatmap and bar stages do not depend on the order of the
    rows of the table they are computed from. *)
Lemma stage_data_perm
  (sort_values : list (str * Z) -> list (str * Z)) (df df' : DataFrame) :
  columns df = columns df' ->
  Permutation (records df) (records df') ->
  heatmap_pivot df = heatmap_pivot df' /\
  commune_counts sort_values df = commune_counts sort_values df'.
Proof.
  intros Ec Hp.
  assert (Hreq : forall cs, require_columns cs df = require_columns cs df').
  { intros cs. induction cs as [|c cs IH]; [reflexivity|].
    simpl. unfold has_column. rewrite Ec. destruct (existsb _ (columns df')); auto. }
  split.
  - unfold heatmap_pivot, heatmap_df. rewrite Hreq.
    now rewrite (groupby_sum_perm _ _ _ _ Hp).
  - unfold commune_counts. rewrite Hreq.
    now rewrite (groupby_sum_perm _ _ _ _ Hp).
Qed.

Section FileOrder.

Variable to_datetime : list (option str) -> str -> option Timestamp.
Variable read_csv : string -> result (list Raw.row).

Lemma per_file_count_table (p : string) (out : DataFrame) :
  per_file to_datetime read_csv p = Ok out -> count_table out.
Proof.
  unfold per_file. destruct (read_csv p) as [raw|e]; simpl; [|discriminate].
  intros Eo. exact (proj1 (process_dataframe_records to_datetime raw out Eo)).
Qed.

Lemma per_file_outs (paths : list string) :
  Forall (fun p => exists out, per_file to_datetime read_csv p = Ok out) paths ->
  exists outs,
    Forall2 (fun p out => per_file to_datetime read_csv p = Ok out) paths outs /\
    Forall count_table outs.
Proof.
  induction 1 as [|p paths (out & Ep) _ (outs & Hf & Hc)].
  - exists []. split; constructor.
  - exists (out :: outs). split; constructor; auto.
    now apply (per_file_count_table p).
Qed.

Lemma per_file_outs_perm (paths paths' : list string) :
  Permutation paths paths' ->
  forall outs,
    Forall2 (fun p out => per_file to_datetime read_csv p = Ok out) paths outs ->
    exists outs',
      Forall2 (fun p out => per_file to_datetime read_csv p = Ok out) paths' outs' /\
      Permutation outs outs'.
Proof.
  induction 1 as [|x l l' _ IH|x y l|l l' l'' _ IH1 _ IH2]; intros outs Hf.
  - exists outs. split; [exact Hf | reflexivity].
  - inversion Hf as [|? o ? os Hx Hl]; subst.
    destruct (IH os Hl) as (os' & Hf' & Hp).
    exists (o :: os'). split; [now constructor | now constructor].
  - inversion Hf as [|? oy ? os1 Hy Hl1]; subst.
    inversion Hl1 as [|? ox ? os Hx Hl]; subst.
    exists (ox :: oy :: os). split; [repeat constructor; assumption | apply perm_swap].
  - destruct (IH1 outs Hf) as (o' & Hf' & Hp').
    destruct (IH2 o' Hf') as (o'' & Hf'' & Hp'').
    exists o''. split; [exact Hf'' | now transitivity o'].
Qed.

Lemma columns_concat_all (outs : list DataFrame) :
  Forall count_table outs ->
  columns (concat_all pd_DataFrame outs) =
  match outs with
  | [] => []
  | _ :: _ => ["year"; "month"; "nomcommuneprinc"; "count"]%string
  end.
Proof.
  intros Hc. destruct outs as [|out outs]; [reflexivity|].
  apply (count_table_concat_all (out :: outs) pd_DataFrame); auto. discriminate.
Qed.

End FileOrder.

Lemma input_files_perm (glob glob' : Z -> list string) (year_range : list Z) :
  (forall year, Permutation (glob year) (glob' year)) ->
  Permutation (input_files glob year_range) (input_files glob' year_range).
Proof.
  intros Hg. unfold input_files. induction year_range as [|y ys IH]; [constructor|].
  cbn [flat_map]. now apply Permutation_app.
Qed.

(** X10. The order in which the glob returns the files of a year does not
    show in the outputs: two runs over the same files, listed in a different
    order within each year, compute the same heatmap grid and the same ranked
    per-commune table. *)
Theorem file_order_independence
  (to_datetime : list (option str) -> str -> option Timestamp) (glob glob' : Z -> list string)
  (read_csv : string -> result (list Raw.row))
  (sort_values : list (str * Z) -> list (str * Z)) (year_range : list Z) :
  (forall year, Permutation (glob year) (glob' year)) ->
  Forall (fun p => exists out, per_file to_datetime read_csv p = Ok out)
         (input_files glob year_range) ->
  exists table table',
    load_and_process_data to_datetime glob read_csv year_range = Ok table /\
    load_and_process_data to_datetime glob' read_csv year_range = Ok table' /\
    heatmap_pivot table = heatmap_pivot table' /\
    commune_counts sort_values table = commune_counts sort_values table'.
Proof.
  intros Hg Hok.
  destruct (per_file_outs to_datetime read_csv _ Hok) as (outs & Hf & Hc).
  destruct (per_file_outs_perm to_datetime read_csv _ _
              (input_files_perm glob glob' year_range Hg) outs Hf) as (outs' & Hf' & Hp).
  assert (Hc' : Forall count_table outs').
  { apply Forall_forall. intros o Ho. rewrite Forall_forall in Hc. apply Hc.
    now apply (Permutation_in _ (Permutation_sym Hp)). }
  exists (concat_all pd_DataFrame outs), (concat_all pd_DataFrame outs').
  split. { unfold load_and_process_data. rewrite load_years_files. now apply load_files_ok. }
  split. { unfold load_and_process_data. rewrite load_years_files. now apply load_files_ok. }
  apply stage_data_perm.
  - rewrite !columns_concat_all by assumption.
    destruct outs as [|o os], outs' as [|o' os']; try reflexivity.
    + apply Permutation_nil in Hp. discriminate.
    + apply Permutation_sym, Permutation_nil in Hp. discriminate.
  - rewrite !records_concat_all. simpl. now apply Permutation_flat_map.
Qed.

Lemma file_order_independence_witness :
  exists table table',
    load_and_process_data to_datetime_iso two_files_glob two_files_read (range 2016 2024)
      = Ok table /\
    load_and_process_data to_datetime_iso (fun year => rev (two_files_glob year))
      two_files_read (range 2016 2024) = Ok table' /\
    heatmap_pivot table = heatmap_pivot table' /\
    commune_counts sort_desc_stable table = commune_counts sort_desc_stable table'.
Proof.
  apply (file_order_independence to_datetime_iso two_files_glob
           (fun year => rev (two_files_glob year)) two_files_read sort_desc_stable
           (range 2016 2024)).
  - intros year. apply Permutation_rev.
  - repeat constructor; eexists; reflexivity.
Defined.

(** ** The run: what is on disk when the boundary file cannot be read *)

(** The grid of a table with at least one row has a cell, so the heatmap can
    be drawn. *)
Lemma sns_heatmap_ok (df : DataFrame) (p : Pivot) :
  count_table df -> heatmap_pivot df = Ok p -> records df <> [] -> sns_heatmap p = Ok tt.
Proof.
  intros Hc Ep Hrows. rewrite (heatmap_pivot_explicit df Hc) in Ep. injection Ep as <-.
  unfold sns_heatmap. cbn [pv_values].
  destruct (records df) as [|r rows] eqn:Er; [congruence|].
  assert (Hm : In (Agg.month r) (group_keys (map Agg.month (r :: rows)))).
  { apply in_group_keys. now left. }
  assert (Hy : In (Agg.year r) (group_keys (map Agg.year (r :: rows)))).
  { apply in_group_keys. now left. }
  destruct (group_keys (map Agg.month (r :: rows))) as [|m ms]; [destruct Hm|].
  destruct (group_keys (map Agg.year (r :: rows))) as [|y ys]; [destruct Hy|].
  reflexivity.
Qed.

(** X11. The boundary file is read only after the heatmap and the bar chart
    are written: when the loader returns a table with at least one row and
    reading the boundary file raises, the run ends with that exception, the
    two images are written and the HTML page is not. *)
Theorem main_boundary_file_error
  (to_datetime : list (option str) -> str -> option Timestamp) (glob : Z -> list string)
  (read_csv : string -> result (list Raw.row))
  (read_file : string -> result (list Feature))
  (sort_values : list (str * Z) -> list (str * Z))
  (table : DataFrame) (e : exn) :
  load_and_process_data to_datetime glob read_csv (range 2016 2024) = Ok table ->
  count_table table ->
  records table <> [] ->
  read_file "communes-corse.geojson"%string = Raise e ->
  exists p ranked bar,
    heatmap_pivot table = Ok p /\
    commune_counts sort_values table = Ok ranked /\
    bars bar = ranked /\
    forall files,
      main to_datetime glob read_csv read_file sort_values files =
        (Raise e,
         files ++ [heatmap_png {| heatmap_data := p;
                                  yticks := combine (range 0 12) month_labels |};
                   barplot_png bar]).
Proof.
  intros El Hc Hrows Er.
  pose proof (heatmap_pivot_explicit table Hc) as Ep.
  pose proof (sns_heatmap_ok table _ Hc Ep Hrows) as Eh.
  pose proof (commune_counts_ok sort_values table Hc) as Ecc.
  eexists. eexists. eexists. split; [exact Ep|]. split; [exact Ecc|].
  split; [|intros files; unfold main, create_heatmap, create_barplot, io_bind, io_lift,
                          write, io_ret; rewrite El, Ep, Eh, Ecc, Er, <- app_assoc;
                          reflexivity].
  reflexivity.
Qed.

Lemma main_boundary_file_error_witness :
  exists p ranked bar,
    heatmap_pivot
      {| columns := ["year"; "month"; "nomcommuneprinc"; "count"]%string;
         records := [Agg.mk 2016 3 (lit "AJACCIO") 1; Agg.mk 2016 3 (lit "AJACCIO") 1] |}
      = Ok p /\
    commune_counts sort_desc_stable
      {| columns := ["year"; "month"; "nomcommuneprinc"; "count"]%string;
         records := [Agg.mk 2016 3 (lit "AJACCIO") 1; Agg.mk 2016 3 (lit "AJACCIO") 1] |}
      = Ok ranked /\
    bars bar = ranked /\
    forall files,
      main to_datetime_iso two_files_glob two_files_read
           (fun path => Raise (FileNotFoundError path)) sort_desc_stable files =
        (Raise (FileNotFoundError "communes-corse.geojson"),
         files ++ [heatmap_png {| heatmap_data := p;
                                  yticks := combine (range 0 12) month_labels |};
                   barplot_png bar]).
Proof.
  apply (main_boundary_file_error to_datetime_iso two_files_glob two_files_read
           (fun path => Raise (FileNotFoundError path)) sort_desc_stable
           {| columns := ["year"; "month"; "nomcommuneprinc"; "count"]%string;
              records := [Agg.mk 2016 3 (lit "AJACCIO") 1;
                          Agg.mk 2016 3 (lit "AJACCIO") 1] |}
           (FileNotFoundError "communes-corse.geojson")).
  - reflexivity.
  - reflexivity.
  - discriminate.
  - reflexivity.
Defined.

(** ** The joined dataset: where its entries come from *)

Lemma in_joined_block_partner (df : list (str * Z)) (g : Feature) (r : Merged.row) :
  In r (joined_block df g) ->
  (forall c, Merged.nomcommuneprinc r = Some c ->
     c = nom g /\ exists v, Merged.count r = Some v /\ In (c, v) df) /\
  (Merged.nomcommuneprinc r = None -> Merged.count r = None).
Proof.
  unfold joined_block. destruct (partners df g) as [|p ps] eqn:E.
  - intros [<-|[]]. simpl. split; [discriminate | reflexivity].
  - intros Hin. apply in_map_iff in Hin as (q & <- & Hq). simpl.
    split; [|discriminate].
    intros c [= <-]. rewrite <- E in Hq. apply filter_In in Hq as (Hq & Eq).
    apply str_eqb_eq in Eq. split; [now symmetry|].
    exists (snd q). split; [reflexivity | now destruct q].
Qed.

Lemma in_choropleth_data (df : list (str * Z)) (gdf : list Feature) (r : Merged.row) :
  In r (choropleth_data df gdf) ->
  exists g r0,
    In g gdf /\ In r0 (joined_block df g) /\ r = fill_row 0 r0.
Proof.
  rewrite choropleth_data_blocks. intros Hr.
  apply in_flat_map in Hr as (g & Hg & Hr).
  apply in_map_iff in Hr as (r0 & <- & Hr0). now exists g, r0.
Qed.

(** X13. The join invents nothing and drops what has no polygon: every entry
    of the choropleth dataset carries the name and the geometry of a feature
    of the boundary file; an entry with a partner has the partner's name, equal
    to its own, and the count of a row of the count table for that name; an
    entry without partner has count 0; and a commune of the count table whose
    name equals no feature name is the partner of no entry. *)
Theorem choropleth_data_provenance (df : list (str * Z)) (gdf : list Feature) :
  (forall r, In r (choropleth_data df gdf) ->
     (exists g, In g gdf /\ Merged.nom r = nom g /\ Merged.geometry r = geometry g) /\
     (forall c, Merged.nomcommuneprinc r = Some c ->
        c = Merged.nom r /\ exists v, Merged.count r = Some v /\ In (c, v) df) /\
     (Merged.nomcommuneprinc r = None -> Merged.count r = Some 0)) /\
  (forall c, (forall g, In g gdf -> nom g <> c) ->
     forall r, In r (choropleth_data df gdf) -> Merged.nomcommuneprinc r <> Some c).
Proof.
  assert (Hrow : forall r, In r (choropleth_data df gdf) ->
     (exists g, In g gdf /\ Merged.nom r = nom g /\ Merged.geometry r = geometry g) /\
     (forall c, Merged.nomcommuneprinc r = Some c ->
        c = Merged.nom r /\ exists v, Merged.count r = Some v /\ In (c, v) df) /\
     (Merged.nomcommuneprinc r = None -> Merged.count r = Some 0)).
  { intros r Hr. destruct (in_choropleth_data df gdf r Hr) as (g & r0 & Hg & Hr0 & ->).
    destruct (in_joined_block df g r0 Hr0) as (En & Eg & _).
    destruct (in_joined_block_partner df g r0 Hr0) as (Hsome & Hnone).
    simpl. split; [now exists g|]. split.
    - intros c Ec. destruct (Hsome c Ec) as (-> & v & Ev & Hin).
      split; [now symmetry|]. exists v. rewrite Ev. now split.
    - intros Ec. now rewrite (Hnone Ec). }
  split; [exact Hrow|].
  intros c Hno r Hr Ec.
  destruct (Hrow r Hr) as ((g & Hg & En & _) & Hsome & _).
  destruct (Hsome c Ec) as (-> & _). now apply (Hno g Hg).
Qed.

(** ** The colour-scale cutoff: bounds and the degenerate range *)

(** The 0.95-quantile of a column with at least one number, laid out: the
    sorted numbers, the two positions it interpolates between, and the
    weight of the upper one. *)
Lemma quantile_095_shape (col : list (option Z)) :
  dropna col <> [] ->
  exists xs d i j f,
    Permutation xs (dropna col) /\ StronglySorted Z.le xs /\
    (i <= j < length xs)%nat /\ (j <= i + 1)%nat /\
    20 * Z.of_nat i <= 19 * (Z.of_nat (length xs) - 1) /\
    (0 <= f)%Q /\ (f <= 1)%Q /\
    quantile (95 # 100) col =
      Some (inject_Z (nth i xs d) + inject_Z (nth j xs d - nth i xs d) * f)%Q.
Proof.
  intros Hne. unfold quantile.
  pose proof (sort_asc_perm (dropna col)) as Hperm.
  pose proof (sort_asc_sorted (dropna col)) as Hsorted.
  destruct (sort_asc (dropna col)) as [|x0 xs'] eqn:Exs.
  { apply Permutation_nil in Hperm. contradiction. }
  set (xs := x0 :: xs') in *.
  set (n := Z.of_nat (length xs)).
  set (h := (inject_Z (n - 1) * (95 # 100))%Q).
  assert (Hn : 1 <= n) by (unfold n, xs; simpl length; lia).
  destruct (Qfloor_position n Hn) as ((Hi0 & Hi1) & _). fold h in Hi0, Hi1.
  assert (Efl : Qfloor h = (n - 1) * 95 / 100).
  { unfold h, Qfloor, inject_Z, Qmult. simpl. reflexivity. }
  exists xs, x0, (Z.to_nat (Qfloor h)), (Z.to_nat (Z.min (Qfloor h + 1) (n - 1))),
    (h - inject_Z (Qfloor h))%Q.
  split; [exact Hperm|]. split; [exact Hsorted|].
  split; [unfold n in *; lia|]. split; [lia|]. split.
  { rewrite Z2Nat.id by lia. fold n. rewrite Efl.
    pose proof (Z.div_mod ((n - 1) * 95) 100 ltac:(lia)).
    pose proof (Z.mod_pos_bound ((n - 1) * 95) 100 ltac:(lia)). lia. }
  split.
  { pose proof (Qfloor_le h). lra. }
  split.
  { pose proof (Qlt_floor h) as Hlt. rewrite inject_Z_plus in Hlt.
    change (inject_Z 1) with 1%Q in Hlt. lra. }
  reflexivity.
Qed.

Lemma in_dropna (v : Z) (col : list (option Z)) : In v (dropna col) <-> In (Some v) col.
Proof.
  induction col as [|[w|] col IH]; simpl; [tauto| |].
  - rewrite IH. split; intros [E|H]; auto; left; congruence.
  - rewrite IH. split; [auto | intros [E|H]; [discriminate | auto]].
Qed.

Lemma choropleth_count_source (df : list (str * Z)) (gdf : list Feature) (v : Z) :
  In (Some v) (map Merged.count (choropleth_data df gdf)) ->
  v = 0 \/ exists c, In (c, v) df.
Proof.
  intros Hin. apply in_map_iff in Hin as (r & Ev & Hr).
  destruct (in_choropleth_data df gdf r Hr) as (g & r0 & Hg & Hr0 & ->).
  destruct (in_joined_block df g r0 Hr0) as (_ & _ & _ & Hsome).
  simpl in Ev. destruct (Merged.count r0) as [w|] eqn:Ew.
  - injection Ev as <-. right. exists (nom g). now apply Hsome.
  - injection Ev as <-. now left.
Qed.

Lemma choropleth_dropna_nonempty (df : list (str * Z)) (gdf : list Feature) :
  gdf <> [] -> dropna (map Merged.count (choropleth_data df gdf)) <> [].
Proof.
  intros Hne Hnil.
  apply (merge_left_nonempty df gdf Hne), length_zero_iff_nil.
  unfold choropleth_data in Hnil.
  rewrite <- (length_dropna_filled (merge_left gdf df)), Hnil. reflexivity.
Qed.

(** X14. With at least one boundary polygon the cutoff is a number that lies
    between two counts of the joined dataset, so it never exceeds the largest
    count on the map; and when no count of the table is negative it is not
    negative either, so the colour range from 0 to the cutoff is never
    inverted. *)
Theorem top_tier_value_bounds (df : list (str * Z)) (gdf : list Feature) :
  gdf <> [] ->
  exists cap lo hi,
    top_tier_value (choropleth_data df gdf) = Some cap /\
    In (Some lo) (map Merged.count (choropleth_data df gdf)) /\
    In (Some hi) (map Merged.count (choropleth_data df gdf)) /\
    (inject_Z lo <= cap)%Q /\ (cap <= inject_Z hi)%Q /\
    (Forall (fun row => 0 <= snd row) df -> (0 <= cap)%Q).
Proof.
  intros Hne.
  destruct (quantile_095_shape _ (choropleth_dropna_nonempty df gdf Hne))
    as (xs & d & i & j & f & Hperm & Hsorted & Hij & _ & _ & Hf0 & Hf1 & Eq).
  set (lo := nth i xs d) in *. set (hi := nth j xs d) in *.
  assert (Hlohi : lo <= hi) by (apply sorted_nth_le; [exact Hsorted | lia]).
  assert (Hlo : In (Some lo) (map Merged.count (choropleth_data df gdf))).
  { apply in_dropna, (Permutation_in _ Hperm), nth_In. lia. }
  assert (Hhi : In (Some hi) (map Merged.count (choropleth_data df gdf))).
  { apply in_dropna, (Permutation_in _ Hperm), nth_In. lia. }
  assert (Ha : (0 <= inject_Z (hi - lo))%Q).
  { change 0%Q with (inject_Z 0). rewrite <- Zle_Qle. lia. }
  assert (Hb : (inject_Z hi == inject_Z lo + inject_Z (hi - lo))%Q).
  { rewrite <- inject_Z_plus. f_equiv. lia. }
  assert (Hge : (inject_Z lo <= inject_Z lo + inject_Z (hi - lo) * f)%Q) by nra.
  exists (inject_Z lo + inject_Z (hi - lo) * f)%Q, lo, hi.
  split; [exact Eq|]. split; [exact Hlo|]. split; [exact Hhi|].
  split; [exact Hge|]. split; [rewrite Hb; nra|].
  intros Hnn.
  assert (H0 : 0 <= lo).
  { destruct (choropleth_count_source df gdf lo Hlo) as [->|(c & Hc)]; [lia|].
    rewrite Forall_forall in Hnn. exact (Hnn _ Hc). }
  eapply Qle_trans; [|exact Hge]. change 0%Q with (inject_Z 0). now rewrite <- Zle_Qle.
Qed.

Lemma top_tier_value_bounds_witness :
  exists cap lo hi,
    top_tier_value
      (choropleth_data [(lit "AJACCIO", 4)]
         [{| nom := lit "AJACCIO"; geometry := [] |}; {| nom := lit "ZONZA"; geometry := [] |}])
      = Some cap /\
    (inject_Z lo <= cap)%Q /\ (cap <= inject_Z hi)%Q.
Proof.
  destruct (top_tier_value_bounds [(lit "AJACCIO", 4)]
              [{| nom := lit "AJACCIO"; geometry := [] |};
               {| nom := lit "ZONZA"; geometry := [] |}] ltac:(discriminate))
    as (cap & lo & hi & Ecap & _ & _ & Hlo & Hhi & _).
  exists cap, lo, hi. auto.
Defined.

Lemma sorted_zero_prefix (xs : list Z) (d : Z) (j : nat) :
  StronglySorted Z.le xs -> Forall (fun v => 0 <= v) xs ->
  (j < length xs - length (filter (fun v => (0 <? v)%Z) xs))%nat ->
  nth j xs d = 0.
Proof.
  intros Hs. revert j. induction Hs as [|h t Hs IH Hh]; intros j Hnn Hj.
  - simpl in Hj. lia.
  - inversion Hnn as [|? ? Hh0 Ht0]; subst. cbn [filter] in Hj.
    destruct (0 <? h) eqn:E.
    + apply Z.ltb_lt in E.
      assert (Hall : filter (fun v => 0 <? v) t = t).
      { clear -Hh E. induction Hh as [|x t Hx _ IHt]; [reflexivity|].
        simpl. assert (Ex : (0 <? x) = true) by (apply Z.ltb_lt; lia).
        now rewrite Ex, IHt. }
      rewrite Hall in Hj. cbn [length] in Hj. lia.
    + apply Z.ltb_ge in E. cbn [length] in Hj. destruct j as [|j]; cbn [nth].
      * lia.
      * apply IH; [exact Ht0|].
        pose proof (filter_length_le (fun v => 0 <? v) t). lia.
Qed.

Lemma positive_count_dropna (rows : list Merged.row) :
  length (filter positive_count rows) =
  length (filter (fun v => 0 <? v) (dropna (map Merged.count rows))).
Proof.
  induction rows as [|r rows IH]; simpl; [reflexivity|].
  unfold positive_count at 1. destruct (Merged.count r) as [v|]; simpl; [|exact IH].
  destruct (0 <? v); simpl; congruence.
Qed.

(** X15. When no count of the table is negative and the polygons with at
    least one occurrence are few enough (twenty times their number, plus 21,
    is at most the number of entries of the joined dataset), the cutoff is 0:
    the colour range of the map collapses to the single value 0 although some
    polygons have occurrences. *)
Theorem top_tier_value_degenerate (df : list (str * Z)) (gdf : list Feature) :
  Forall (fun row => 0 <= snd row) df ->
  20 * Z.of_nat (length (filter positive_count (choropleth_data df gdf))) + 21
    <= Z.of_nat (length (choropleth_data df gdf)) ->
  exists cap,
    top_tier_value (choropleth_data df gdf) = Some cap /\ (cap == 0)%Q.
Proof.
  intros Hnn Hfew.
  assert (Hlen : length (dropna (map Merged.count (choropleth_data df gdf)))
                 = length (choropleth_data df gdf)).
  { unfold choropleth_data. rewrite length_dropna_filled.
    unfold fillna_count. now rewrite length_map. }
  assert (Hne : dropna (map Merged.count (choropleth_data df gdf)) <> []).
  { intros Hnil. rewrite Hnil in Hlen. simpl in Hlen. lia. }
  destruct (quantile_095_shape _ Hne)
    as (xs & d & i & j & f & Hperm & Hsorted & Hij & Hj & Hi & _ & _ & Eq).
  assert (Hxs0 : Forall (fun v => 0 <= v) xs).
  { apply Forall_forall. intros v Hv.
    apply (Permutation_in _ Hperm), in_dropna in Hv.
    destruct (choropleth_count_source df gdf v Hv) as [->|(c & Hc)]; [lia|].
    rewrite Forall_forall in Hnn. exact (Hnn _ Hc). }
  assert (Hpos : length (filter (fun v => 0 <? v) xs)
                 = length (filter positive_count (choropleth_data df gdf))).
  { rewrite positive_count_dropna. now apply filter_length_perm. }
  assert (Hn : length xs = length (choropleth_data df gdf)).
  { now rewrite (Permutation_length Hperm). }
  assert (Ej : nth j xs d = 0).
  { apply sorted_zero_prefix; auto. rewrite Hpos, Hn. lia. }
  assert (Ei : nth i xs d = 0).
  { apply sorted_zero_prefix; auto. rewrite Hpos, Hn. lia. }
  eexists. split; [exact Eq|]. rewrite Ei, Ej. simpl. ring.
Qed.

Lemma top_tier_value_degenerate_witness :
  exists cap,
    top_tier_value (choropleth_data [([65%N], 5)] forty_one_polygons) = Some cap /\
    (cap == 0)%Q.
Proof.
  apply (top_tier_value_degenerate [([65%N], 5)] forty_one_polygons).
  - repeat constructor. simpl. lia.
  - vm_compute. discriminate.
Defined.

(** ** The columns of the combined table *)

Lemma load_files_inv
  (to_datetime : list (option str) -> str -> option Timestamp)
  (read_csv : string -> result (list Raw.row))
  (paths : list string) (df0 table : DataFrame) :
  load_files to_datetime read_csv paths df0 = Ok table ->
  exists outs,
    Forall2 (fun p out => per_file to_datetime read_csv p = Ok out) paths outs /\
    table = concat_all df0 outs.
Proof.
  revert df0. induction paths as [|p paths IH]; intros df0 E; simpl in E.
  - injection E as <-. exists []. split; [constructor | reflexivity].
  - destruct (read_csv p) as [raw|e] eqn:Er; simpl in E; [|discriminate].
    destruct (process_dataframe to_datetime raw) as [out|e] eqn:Eo; simpl in E; [|discriminate].
    destruct (IH _ E) as (outs & Hf & ->).
    exists (out :: outs). split; [|reflexivity].
    constructor; [|exact Hf]. unfold per_file. now rewrite Er.
Qed.

(** X16. A table returned by the loader has no column at all when the glob
    matched no file, and the four columns year, month, nomcommuneprinc, count
    as soon as one file was read, even if no row of any file matched the
    filter. So the grouping of the heatmap stage raises [KeyError] on [year]
    in the first case only; in the second the (year, month) totals are
    computed and pivoted without exception. *)
Theorem load_and_process_data_columns
  (to_datetime : list (option str) -> str -> option Timestamp) (glob : Z -> list string)
  (read_csv : string -> result (list Raw.row))
  (year_range : list Z) (table : DataFrame) :
  load_and_process_data to_datetime glob read_csv year_range = Ok table ->
  (input_files glob year_range = [] /\ table = pd_DataFrame /\
   heatmap_pivot table = Raise (KeyError "year")) \/
  (input_files glob year_range <> [] /\ count_table table /\
   exists p, heatmap_pivot table = Ok p).
Proof.
  unfold load_and_process_data. rewrite load_years_files. intros E.
  destruct (load_files_inv to_datetime read_csv _ _ _ E) as (outs & Hf & ->).
  destruct (input_files glob year_range) as [|p paths] eqn:Ep.
  - left. inversion Hf; subst. repeat split; reflexivity.
  - right. split; [discriminate|].
    assert (Hc : count_table (concat_all pd_DataFrame outs)).
    { apply count_table_concat_all.
      - now left.
      - clear -Hf. induction Hf as [|q out qs outs Hq _ IH]; constructor; auto.
        now apply (per_file_count_table to_datetime read_csv q).
      - inversion Hf; subst. discriminate. }
    split; [exact Hc|]. eexists. now apply heatmap_pivot_explicit.
Qed.

Lemma load_and_process_data_columns_witness :
  (input_files two_files_glob (range 2016 2024) = [] /\
   {| columns := ["year"; "month"; "nomcommuneprinc"; "count"]%string;
      records := [Agg.mk 2016 3 (lit "AJACCIO") 1; Agg.mk 2016 3 (lit "AJACCIO") 1] |}
     = pd_DataFrame /\
   heatmap_pivot
     {| columns := ["year"; "month"; "nomcommuneprinc"; "count"]%string;
        records := [Agg.mk 2016 3 (lit "AJACCIO") 1; Agg.mk 2016 3 (lit "AJACCIO") 1] |}
     = Raise (KeyError "year")) \/
  (input_files two_files_glob (range 2016 2024) <> [] /\
   count_table
     {| columns := ["year"; "month"; "nomcommuneprinc"; "count"]%string;
        records := [Agg.mk 2016 3 (lit "AJACCIO") 1; Agg.mk 2016 3 (lit "AJACCIO") 1] |} /\
   exists p,
     heatmap_pivot
       {| columns := ["year"; "month"; "nomcommuneprinc"; "count"]%string;
          records := [Agg.mk 2016 3 (lit "AJACCIO") 1; Agg.mk 2016 3 (lit "AJACCIO") 1] |}
       = Ok p).
Proof.
  apply (load_and_process_data_columns to_datetime_iso two_files_glob two_files_read
           (range 2016 2024)).
  reflexivity.
Defined.

(** ** A complete run *)

Lemma choropleth_data_unique (df : list (str * Z)) (gdf : list Feature) :
  NoDup (map fst df) -> choropleth_data df gdf = map (joined_row df) gdf.
Proof.
  intros Hnd. rewrite choropleth_data_blocks.
  induction gdf as [|g gdf IH]; [reflexivity|].
  cbn [flat_map map]. rewrite IH. unfold joined_block, joined_row.
  rewrite (partners_unique df g Hnd). destruct (find _ df); reflexivity.
Qed.

Lemma ranked_NoDup (sort_values : list (str * Z) -> list (str * Z)) (rows : list Agg.row) :
  sort_contract sort_values ->
  NoDup (map fst (sort_values (groupby_sum Agg.nomcommuneprinc Agg.count rows))).
Proof.
  intros (Hperm & _).
  apply (Permutation_NoDup
           (l := map fst (groupby_sum Agg.nomcommuneprinc Agg.count rows))).
  - apply Permutation_map. symmetry. apply Hperm.
  - rewrite groupby_sum_keys. apply group_keys_NoDup.
Qed.

(** X17. A run whose loader returns a table with at least one row and whose
    boundary file is read writes the heatmap, the bar chart and the page, in
    that order; the dataset of the page has exactly one entry per feature of
    the boundary file, in the order of the file, with the feature's geometry
    and, as name, the normalized name of the feature. *)
Theorem main_map_entries
  (to_datetime : list (option str) -> str -> option Timestamp) (glob : Z -> list string)
  (read_csv : string -> result (list Raw.row))
  (read_file : string -> result (list Feature))
  (sort_values : list (str * Z) -> list (str * Z))
  (table : DataFrame) (gdf : list Feature) :
  load_and_process_data to_datetime glob read_csv (range 2016 2024) = Ok table ->
  count_table table ->
  records table <> [] ->
  read_file "communes-corse.geojson"%string = Ok gdf ->
  sort_contract sort_values ->
  exists heat bar fig,
    (forall files,
       main to_datetime glob read_csv read_file sort_values files =
         (Ok tt, files ++ [heatmap_png heat; barplot_png bar; index_html fig])) /\
    map Merged.nom (merged_df fig) =
      map (fun f => remove_accents_and_uppercase (nom f)) gdf /\
    map Merged.geometry (merged_df fig) = map geometry gdf.
Proof.
  intros El Hc Hrows Er Hsort.
  pose proof (heatmap_pivot_explicit table Hc) as Ep.
  pose proof (sns_heatmap_ok table _ Hc Ep Hrows) as Eh.
  pose proof (commune_counts_ok sort_values table Hc) as Ecc.
  set (ranked := sort_values (groupby_sum Agg.nomcommuneprinc Agg.count (records table))) in *.
  set (gdf' := map (fun f => {| nom := remove_accents_and_uppercase (nom f);
                                geometry := geometry f |}) gdf).
  eexists. eexists.
  exists {| merged_df := choropleth_data ranked gdf';
            range_color := (0%Q, top_tier_value (choropleth_data ranked gdf')) |}.
  split; [|split].
  - intros files.
    unfold main, create_heatmap, create_barplot, create_choropleth, io_bind, io_lift,
      write, io_ret.
    rewrite El, Ep, Eh, Ecc, Er. fold gdf'. rewrite <- !app_assoc. reflexivity.
  - cbn [merged_df].
    rewrite (choropleth_data_unique ranked gdf' (ranked_NoDup sort_values _ Hsort)).
    unfold gdf'. rewrite !map_map. apply map_ext. intros f.
    unfold joined_row. cbn [nom geometry]. now destruct (find _ ranked).
  - cbn [merged_df].
    rewrite (choropleth_data_unique ranked gdf' (ranked_NoDup sort_values _ Hsort)).
    unfold gdf'. rewrite !map_map. apply map_ext. intros f.
    unfold joined_row. cbn [nom geometry]. now destruct (find _ ranked).
Qed.

Lemma main_map_entries_witness :
  exists heat bar fig,
    (forall files,
       main to_datetime_iso accented_glob accented_read_csv accented_read_file
            sort_desc_stable files =
         (Ok tt, files ++ [heatmap_png heat; barplot_png bar; index_html fig])) /\
    map Merged.nom (merged_df fig) = [lit "AJACCIO"] /\
    map Merged.geometry (merged_df fig) = [[]].
Proof.
  apply (main_map_entries to_datetime_iso accented_glob accented_read_csv
           accented_read_file sort_desc_stable
           {| columns := ["year"; "month"; "nomcommuneprinc"; "count"]%string;
              records := [Agg.mk 2016 3 ([195%N] ++ lit "JACCIO") 1] |}
           [{| nom := lit "Ajaccio"; geometry := [] |}]).
  - reflexivity.
  - reflexivity.
  - discriminate.
  - reflexivity.
  - exact sort_desc_stable_contract.
Defined.

(** ** A run without counted sample *)

(** X18. A run whose loader returns a table with the four columns and no
    row (files are read and transformed, but no row of theirs is counted)
    stops at the heatmap: the pivot of the table is a grid without cells,
    drawing it raises [ValueError], and the run ends with that exception
    before any file is written. *)
Theorem main_no_counted_sample
  (to_datetime : list (option str) -> str -> option Timestamp) (glob : Z -> list string)
  (read_csv : string -> result (list Raw.row))
  (read_file : string -> result (list Feature))
  (sort_values : list (str * Z) -> list (str * Z))
  (table : DataFrame) :
  load_and_process_data to_datetime glob read_csv (range 2016 2024) = Ok table ->
  count_table table ->
  records table = [] ->
  heatmap_pivot table = Ok {| pv_index := []; pv_columns := []; pv_values := [] |} /\
  forall files,
    main to_datetime glob read_csv read_file sort_values files =
      (Raise (ValueError "zero-size array to reduction operation fmin which has no identity"),
       files).
Proof.
  intros El Hc Hrows.
  pose proof (heatmap_pivot_explicit table Hc) as Ep. rewrite Hrows in Ep. cbn in Ep.
  split; [exact Ep|].
  intros files. unfold main, create_heatmap, io_bind, io_lift. now rewrite El, Ep.
Qed.

Lemma main_no_counted_sample_witness :
  main to_datetime_iso two_files_glob
       (fun path => Ok [sample "2016-03-01" "Ajaccio" "Eau conforme"])
       accented_read_file sort_desc_stable [] =
    (Raise (ValueError "zero-size array to reduction operation fmin which has no identity"),
     []).
Proof.
  apply (main_no_counted_sample to_datetime_iso two_files_glob
           (fun path => Ok [sample "2016-03-01" "Ajaccio" "Eau conforme"])
           accented_read_file sort_desc_stable
           {| columns := ["year"; "month"; "nomcommuneprinc"; "count"]%string;
              records := [] |}).
  - reflexivity.
  - reflexivity.
  - reflexivity.
Defined.
